(** * NoteStream / TradePro backend: the live market-data core

    A shallow embedding of [complete-tradepro-backend.js]: the in-memory
    quote table [marketData], the periodic tick [updateMarketData], the
    WebSocket fan-out [broadcastToClients], the connection handler that
    sends the [initialData] snapshot, and the HTTP routes that take a
    symbol ([/api/market-indices/:symbol], [/api/options-chain], the two
    [/api/ai] analysis routes).  The routes on portfolios, positions,
    alerts and trades are modelled apart, over a state of their own
    ([Desk]): none of them writes [marketData], [optionsData] or the
    socket registry.  The watchlist, [create-strategy] and the static
    fallback, which format numbers and dates for display, are left out.

    The server is single-threaded: every callback runs to completion, so
    one event of the model is one callback of the event loop, and an
    exception that leaves a callback is kept as such ([Completion]).
    [Math.random] and the clock are the environment: the state carries
    the sequence of values they will return.

    JavaScript numbers are IEEE-754 binary64 values.  The arithmetic the
    handlers use is collected in the class [Number], with two instances:
    - [binary64]: Rocq's primitive floats, the arithmetic the program
      really runs; statements about it are proved by evaluation;
    - [exact]: rational numbers, the arithmetic in which the bounds of
      the specification are stated, for the statements that quantify
      over all prices and all draws.
    Everything that does not depend on the arithmetic is proved for any
    instance. *)

From Stdlib Require Import ZArith QArith Qround Qabs Lqa Lia Floats.
From Stdlib Require Import String Ascii List.
From stdpp Require Import gmap strings list.

Local Open Scope Z_scope.

(** ** Numbers *)

Class Number (num : Type) := {
  (** the value of a numeric literal of the source, given as a fraction *)
  lit : Q -> num;
  add : num -> num -> num;
  sub : num -> num -> num;
  mul : num -> num -> num;
  div : num -> num -> num;
  (** [Math.floor] *)
  floor : num -> num;
  (** [parseFloat(x.toFixed(2))] *)
  toFixed2 : num -> num;
  (** [xs[i]] reads an element only when [i] is a non-negative integer *)
  toIndex : num -> option nat;
  (** the rational a number denotes (0 for NaN and the infinities) *)
  toQ : num -> Q
}.

(** The integer nearest to [q], ties away from zero.  [Number.prototype.toFixed]
    drops the sign, picks "an integer n for which n / 10^f - x is as close
    to zero as possible; if there are two such n, the larger", and puts
    the sign back. *)
Definition nearest (q : Q) : Z :=
  if Qle_bool 0 q then Qfloor (q + (1 # 2)) else - Qfloor (- q + (1 # 2)).

Definition cents (q : Q) : Z := nearest (q * inject_Z 100).

Module Exact.

Definition toFixed2 (x : Q) : Q := cents x # 100.

Definition toIndex (x : Q) : option nat :=
  if Qle_bool 0 x && Qeq_bool x (inject_Z (Qfloor x))
  then Some (Z.to_nat (Qfloor x)) else None.

End Exact.

#[export] Instance exact : Number Q := {|
  lit := fun q => q;
  add := Qplus;
  sub := Qminus;
  mul := Qmult;
  div := Qdiv;
  floor := fun x => inject_Z (Qfloor x);
  toFixed2 := Exact.toFixed2;
  toIndex := Exact.toIndex;
  toQ := fun x => x
|}.

Module Binary64.

(** An integer as a (not yet normalised) floating-point datum. *)
Definition Z2SF (z : Z) : spec_float :=
  match z with
  | Z0 => S754_zero false
  | Zpos p => S754_finite false p 0
  | Zneg p => S754_finite true p 0
  end.

(** The binary64 value nearest to the fraction [q] (ties to even): what
    a decimal literal and [parseFloat] of a decimal numeral yield. *)
Definition ofQ (q : Q) : float :=
  SF2Prim (SFdiv prec emax (Z2SF (Qnum q)) (S754_finite false (Qden q) 0)).

(** The rational a finite binary64 value denotes. *)
Definition SF2Q (x : spec_float) : Q :=
  match x with
  | S754_finite s m e =>
      let z := if s then Zneg m else Zpos m in
      if 0 <=? e then inject_Z (z * 2 ^ e) else z # (2 ^ Z.to_pos (- e))
  | _ => 0
  end.

Definition toQ (x : float) : Q := SF2Q (Prim2SF x).

(** [Math.floor]: zeros, NaN and the infinities are returned as they
    are, and so is a value with no fractional bits. *)
Definition floor (x : float) : float :=
  match Prim2SF x with
  | S754_finite s m e =>
      if 0 <=? e then x else ofQ (inject_Z (Qfloor (SF2Q (S754_finite s m e))))
  | _ => x
  end.

(** [parseFloat(x.toFixed(2))].  [toFixed] prints NaN as "NaN", a value
    of magnitude 10^21 or more (the infinities included) as [ToString]
    does, which [parseFloat] reads back as the same value; any other
    value as the decimal numeral of [cents x / 100], with a minus sign
    when [x < 0], so that a small negative value comes back as -0. *)
Definition toFixed2 (x : float) : float :=
  match Prim2SF x with
  | S754_finite s m e =>
      let q := SF2Q (S754_finite s m e) in
      if Qle_bool (inject_Z (10 ^ 21)) (Qabs q) then x
      else
        let n := cents q in
        if n =? 0 then (if s then (-0)%float else 0%float) else ofQ (n # 100)
  | S754_zero _ => 0%float
  | _ => x
  end.

Definition toIndex (x : float) : option nat :=
  match Prim2SF x with
  | S754_zero _ => Some 0%nat
  | S754_finite false m e => Exact.toIndex (SF2Q (S754_finite false m e))
  | _ => None
  end.

End Binary64.

#[export] Instance binary64 : Number float := {|
  lit := Binary64.ofQ;
  add := PrimFloat.add;
  sub := PrimFloat.sub;
  mul := PrimFloat.mul;
  div := PrimFloat.div;
  floor := Binary64.floor;
  toFixed2 := Binary64.toFixed2;
  toIndex := Binary64.toIndex;
  toQ := Binary64.toQ
|}.

(** ** Strings *)

Definition upper (c : ascii) : ascii :=
  let n := nat_of_ascii c in
  if (97 <=? n)%nat && (n <=? 122)%nat then ascii_of_nat (n - 32) else c.

Definition lower (c : ascii) : ascii :=
  let n := nat_of_ascii c in
  if (65 <=? n)%nat && (n <=? 90)%nat then ascii_of_nat (n + 32) else c.

Fixpoint mapString (f : ascii -> ascii) (s : string) : string :=
  match s with
  | EmptyString => EmptyString
  | String c s => String (f c) (mapString f s)
  end.

(** [String.prototype.toUpperCase] and [toLowerCase], on ASCII text (the
    symbols and labels of this program). *)
Definition toUpperCase : string -> string := mapString upper.
Definition toLowerCase : string -> string := mapString lower.

(** ** Exceptions *)

Inductive Exn :=
| Error (message : string)
| TypeError (message : string).

Inductive Completion (A : Type) :=
| Return (a : A)
| Throw (e : Exn).
Arguments Return {A} a.
Arguments Throw {A} e.

Definition bind {A B} (c : Completion A) (k : A -> Completion B) : Completion B :=
  match c with
  | Return a => k a
  | Throw e => Throw e
  end.

#[export] Instance Completion_bind : MBind Completion :=
  fun A B k c => bind c k.
#[export] Instance Completion_ret : MRet Completion := @Return.

(** [xs.forEach(f)] for a callback that updates the state and may throw. *)
Fixpoint forEach {A S} (f : A -> S -> Completion S) (xs : list A) (s : S)
  : Completion S :=
  match xs with
  | [] => Return s
  | x :: xs => s' ← f x s; forEach f xs s'
  end.

(** ** Data *)

Inductive ReadyState := CONNECTING | OPEN | CLOSING | CLOSED.

#[export] Instance ReadyState_eq_dec : EqDecision ReadyState.
Proof. solve_decision. Defined.

(** A server-side socket of the [ws] library: [sock] names the
    connection, in the order the connections were accepted. *)
Record WebSocket := { sock : nat; readyState : ReadyState }.

Section Model.

Context {num : Type} `{Number num}.

(** An entry of [marketData]: the Quote of the specification. *)
Record MarketIndex := {
  id_ : Z;
  symbol : string;
  name : string;
  price : num;
  change : num;
  changePercent : num;
  volume : num;
  timestamp : Z
}.

(** A row of an options chain in [optionsData]. *)
Record OptionQuote := {
  optionId : Z;
  underlyingSymbol : string;
  strike : num;
  callPrice : num;
  putPrice : num;
  callVolume : num;
  putVolume : num;
  callOI : num;
  putOI : num;
  expiryDate : string;
  optionTimestamp : Z
}.

(** What [analyzeMarketWithAI] returns.  An array read out of range is
    [undefined], here [None]. *)
Record Analysis := {
  a_symbol : string;
  signal : option string;
  confidence : num;
  reasoning : string;
  targetPrice : num;
  stopLoss : num;
  riskLevel : string;
  a_timestamp : Z
}.

(** What [generateTradingSignal] returns: the analysis and three more
    fields. *)
Record TradingSignal := {
  analysis : Analysis;
  entryPrice : num;
  quantity : num;
  timeframe : string
}.

(** The two WebSocket messages, before [JSON.stringify]. *)
Inductive Message :=
| initialData (data : gmap string MarketIndex)
| marketUpdate (symbol : string) (data : MarketIndex).

(** The process: the tables, the socket registry [wss.clients] in
    insertion order, and the environment.  [wire] lists the frames the
    sockets accepted, oldest first; a socket transmits its frames in
    that order.  [entropy] is the sequence of values [Math.random]
    will return and [drawn] how many were consumed; [clock] and
    [read] are the same for [new Date()] and [Date.now()]. *)
Record Server := {
  marketData : gmap string MarketIndex;
  optionsData : gmap string (list OptionQuote);
  aiAnalysis : gmap (string * Z) Analysis;
  clients : list WebSocket;
  accepted : nat;
  wire : list (nat * Message);
  entropy : nat -> num;
  drawn : nat;
  clock : nat -> Z;
  read : nat
}.

Definition set_marketData (m : gmap string MarketIndex) (s : Server) : Server :=
  {| marketData := m; optionsData := optionsData s; aiAnalysis := aiAnalysis s;
     clients := clients s; accepted := accepted s; wire := wire s;
     entropy := entropy s; drawn := drawn s; clock := clock s; read := read s |}.

Definition set_optionsData (o : gmap string (list OptionQuote)) (s : Server) : Server :=
  {| marketData := marketData s; optionsData := o; aiAnalysis := aiAnalysis s;
     clients := clients s; accepted := accepted s; wire := wire s;
     entropy := entropy s; drawn := drawn s; clock := clock s; read := read s |}.

Definition set_aiAnalysis (a : gmap (string * Z) Analysis) (s : Server) : Server :=
  {| marketData := marketData s; optionsData := optionsData s; aiAnalysis := a;
     clients := clients s; accepted := accepted s; wire := wire s;
     entropy := entropy s; drawn := drawn s; clock := clock s; read := read s |}.

Definition set_clients (c : list WebSocket) (s : Server) : Server :=
  {| marketData := marketData s; optionsData := optionsData s;
     aiAnalysis := aiAnalysis s;
     clients := c; accepted := accepted s; wire := wire s;
     entropy := entropy s; drawn := drawn s; clock := clock s; read := read s |}.

Definition set_accepted (n : nat) (s : Server) : Server :=
  {| marketData := marketData s; optionsData := optionsData s;
     aiAnalysis := aiAnalysis s;
     clients := clients s; accepted := n; wire := wire s;
     entropy := entropy s; drawn := drawn s; clock := clock s; read := read s |}.

Definition set_wire (w : list (nat * Message)) (s : Server) : Server :=
  {| marketData := marketData s; optionsData := optionsData s;
     aiAnalysis := aiAnalysis s;
     clients := clients s; accepted := accepted s; wire := w;
     entropy := entropy s; drawn := drawn s; clock := clock s; read := read s |}.

(** [Math.random()] *)
Definition Math_random (s : Server) : num * Server :=
  (entropy s (drawn s),
   {| marketData := marketData s; optionsData := optionsData s;
      aiAnalysis := aiAnalysis s;
      clients := clients s; accepted := accepted s; wire := wire s;
      entropy := entropy s; drawn := S (drawn s); clock := clock s;
      read := read s |}).

(** [new Date()], and [Date.now()] *)
Definition new_Date (s : Server) : Z * Server :=
  (clock s (read s),
   {| marketData := marketData s; optionsData := optionsData s;
      aiAnalysis := aiAnalysis s;
      clients := clients s; accepted := accepted s; wire := wire s;
      entropy := entropy s; drawn := drawn s; clock := clock s;
      read := S (read s) |}).

End Model.

Arguments MarketIndex num : clear implicits.
Arguments OptionQuote num : clear implicits.
Arguments Analysis num : clear implicits.
Arguments TradingSignal num : clear implicits.
Arguments Message num : clear implicits.
Arguments Server num : clear implicits.


(** ** The program *)

Section Program.

Context {num : Type} `{Number num}.

Abbreviation Server := (Server num).
Abbreviation MarketIndex := (MarketIndex num).
Abbreviation Message := (Message num).

(** *** The [ws] library

    What the program relies on of [ws] 8: completing a handshake opens
    the socket and adds it to [wss.clients] before ['connection'] is
    emitted; [send] queues the frame on an open socket, throws on a
    connecting one and drops the data on a closing or closed one; a
    socket leaves [wss.clients] when its ['close'] event fires. *)

Definition completeUpgrade (s : Server) : WebSocket * Server :=
  let ws := {| sock := accepted s; readyState := OPEN |} in
  (ws, set_accepted (S (accepted s)) (set_clients (clients s ++ [ws]) s)).

Definition ws_send (ws : WebSocket) (message : Message) (s : Server)
  : Completion Server :=
  match readyState ws with
  | CONNECTING => Throw (Error "WebSocket is not open: readyState 0 (CONNECTING)")
  | OPEN => Return (set_wire (wire s ++ [(sock ws, message)]) s)
  | CLOSING | CLOSED => Return s
  end.

Definition socketClosing (c : nat) (s : Server) : Server :=
  set_clients
    (map (fun ws => if decide (sock ws = c)
                    then {| sock := c; readyState := CLOSING |} else ws)
         (clients s)) s.

Definition socketClose (c : nat) (s : Server) : Server :=
  set_clients (filter (fun ws => sock ws ≠ c) (clients s)) s.

(** *** [initializeDemoData] *)

Definition bankNiftyOptions : list (Q * Q * Q * Q * Q * Q * Q) :=
  [ (47000, 2156.75, 45.30, 1250, 890, 15000, 8900);
    (47500, 1687.25, 78.45, 2340, 1560, 23400, 15600);
    (48000, 1285.90, 134.25, 3450, 2890, 34500, 28900);
    (48500, 945.75, 213.60, 2670, 3240, 26700, 32400);
    (49000, 678.30, 327.80, 1890, 4120, 18900, 41200);
    (49500, 456.25, 478.90, 1240, 2890, 12400, 28900);
    (50000, 298.75, 667.45, 890, 2340, 8900, 23400) ]%Q.

Definition marketIndices : list (Z * string * string * Q * Q * Q * Q) :=
  [ (1%Z, "BANKNIFTY", "Bank Nifty", 47825.50, 245.75, 0.52, 1234567);
    (2%Z, "NIFTY", "Nifty 50", 21845.30, 125.40, 0.58, 987654);
    (3%Z, "SENSEX", "Sensex", 72456.80, 189.20, 0.26, 654321);
    (4%Z, "FINNIFTY", "Fin Nifty", 20567.90, -45.60, -0.22, 456789) ]%Q.

(** [bankNiftyOptions.map((option, index) => ...)] *)
Fixpoint mapOptions (index : Z) (rows : list (Q * Q * Q * Q * Q * Q * Q))
  (s : Server) : list (OptionQuote num) * Server :=
  match rows with
  | [] => ([], s)
  | (k, cp, pp, cv, pv, coi, poi) :: rows =>
      let '(now, s) := new_Date s in
      let option :=
        {| optionId := index + 1; underlyingSymbol := "BANKNIFTY";
           strike := lit k; callPrice := lit cp; putPrice := lit pp;
           callVolume := lit cv; putVolume := lit pv;
           callOI := lit coi; putOI := lit poi;
           expiryDate := "25 Jan 2024"; optionTimestamp := now |} in
      let '(options, s) := mapOptions (index + 1) rows s in
      (option :: options, s)
  end.

(** [marketIndices.forEach(index => marketData.set(index.symbol, ...))] *)
Definition setIndex (index : Z * string * string * Q * Q * Q * Q) (s : Server)
  : Server :=
  let '(i, sym, nm, p, c, cp, v) := index in
  let '(now, s) := new_Date s in
  set_marketData
    (<[sym := {| id_ := i; symbol := sym; name := nm; price := lit p;
                 change := lit c; changePercent := lit cp; volume := lit v;
                 timestamp := now |}]> (marketData s)) s.

Definition initializeDemoData (s : Server) : Server :=
  let '(options, s) := mapOptions 0 bankNiftyOptions s in
  let s := set_optionsData (<["BANKNIFTY" := options]> (optionsData s)) s in
  foldl (fun s index => setIndex index s) s marketIndices.

(** The process as the module is loaded: empty tables, no socket. *)
Definition loaded (entropy : nat -> num) (clock : nat -> Z) : Server :=
  {| marketData := ∅; optionsData := ∅; aiAnalysis := ∅; clients := [];
     accepted := 0; wire := []; entropy := entropy; drawn := 0;
     clock := clock; read := 0 |}.

(** The process when [server.listen] has been called. *)
Definition boot (entropy : nat -> num) (clock : nat -> Z) : Server :=
  initializeDemoData (loaded entropy clock).

(** *** [broadcastToClients] *)

Definition broadcastToClients (data : Message) (s : Server) : Completion Server :=
  let message := data in
  forEach (fun client s =>
             if decide (readyState client = OPEN)
             then ws_send client message s
             else Return s)
          (clients s) s.

(** *** [updateMarketData] *)

Definition symbols : list string := ["BANKNIFTY"; "NIFTY"; "SENSEX"; "FINNIFTY"].

(** The constants of one round of the loop, from the entry [current] and
    the value [r] that [Math.random] returned. *)
Definition fluctuationOf (r : num) : num := mul (sub r (lit 0.5)) (lit 0.02).

Definition newPriceOf (current : MarketIndex) (r : num) : num :=
  mul (price current) (add (lit 1) (fluctuationOf r)).

Definition changeOf (current : MarketIndex) (r : num) : num :=
  sub (newPriceOf current r) (price current).

Definition changePercentOf (current : MarketIndex) (r : num) : num :=
  mul (div (changeOf current r) (price current)) (lit 100).

(** The object [updatedData]: [r1] and [r2] are the two values
    [Math.random] returned and [now] is [new Date()]. *)
Definition updatedData (current : MarketIndex) (r1 r2 : num) (now : Z)
  : MarketIndex :=
  {| id_ := id_ current; symbol := symbol current; name := name current;
     price := toFixed2 (newPriceOf current r1);
     change := toFixed2 (changeOf current r1);
     changePercent := toFixed2 (changePercentOf current r1);
     volume := add (floor (mul r2 (lit 500000))) (lit 500000);
     timestamp := now |}.

(** The body of [symbols.forEach(symbol => ...)]. *)
Definition updateSymbol (sym : string) (s : Server) : Completion Server :=
  match marketData s !! sym with
  | Some current =>
      let '(r1, s) := Math_random s in
      let '(r2, s) := Math_random s in
      let '(now, s) := new_Date s in
      let updated := updatedData current r1 r2 now in
      let s := set_marketData (<[sym := updated]> (marketData s)) s in
      broadcastToClients (marketUpdate sym updated) s
  | None => Return s
  end.

Definition updateMarketData (s : Server) : Completion Server :=
  forEach updateSymbol symbols s.

(** *** [wss.on('connection', ...)] *)

Definition onConnection (ws : WebSocket) (s : Server) : Completion Server :=
  let data :=
    map_fold (fun sym data acc => <[sym := data]> acc) ∅ (marketData s) in
  ws_send ws (initialData data) s.

(** *** The AI agent *)

(** [analyzeMarketWithAI].  The function looks the symbol up, waits two
    seconds and then works on the entry it read; the wait is not
    modelled: nothing the function reads afterwards can change
    meanwhile, [Math.random] and the clock apart. *)
Definition analyzeMarketWithAI (sym : string) (s : Server)
  : Completion (Analysis num) * Server :=
  match marketData s !! sym with
  | None => (Throw (Error "Market data not found"), s)
  | Some marketDataPoint =>
      let signals := ["BUY"; "SELL"; "HOLD"] in
      let riskLevels := ["LOW"; "MEDIUM"; "HIGH"] in
      let '(r, s) := Math_random s in
      let signal_ :=
        i ← toIndex (floor (mul r (lit (inject_Z (Z.of_nat (length signals))))));
        signals !! i in
      let '(r, s) := Math_random s in
      let confidence_ := add (floor (mul r (lit 30))) (lit 70) in
      let '(r, s) := Math_random s in
      let riskLevel_ :=
        i ← toIndex (floor (mul r (lit (inject_Z (Z.of_nat (length riskLevels))))));
        riskLevels !! i in
      let targetMultiplier :=
        if decide (signal_ = Some "BUY") then lit 1.02 else lit 0.98 in
      let stopMultiplier :=
        if decide (signal_ = Some "BUY") then lit 0.98 else lit 1.02 in
      match riskLevel_ with
      | None =>
          (Throw (TypeError "Cannot read properties of undefined (reading 'toLowerCase')"), s)
      | Some level =>
          let text :=
            ("Based on current market analysis of " ++ sym
             ++ ", the AI model detected "
             ++ (if decide (signal_ = Some "BUY")
                 then "bullish momentum with strong volume support"
                 else if decide (signal_ = Some "SELL")
                 then "bearish pressure with resistance at current levels"
                 else "consolidation pattern with mixed signals")
             ++ ". Technical indicators suggest " ++ toLowerCase level
             ++ " risk entry point.")%string in
          let '(now, s) := new_Date s in
          (Return {| a_symbol := sym; signal := signal_;
                     confidence := confidence_; reasoning := text;
                     targetPrice := mul (price marketDataPoint) targetMultiplier;
                     stopLoss := mul (price marketDataPoint) stopMultiplier;
                     riskLevel := level; a_timestamp := now |}, s)
      end
  end.

(** [generateTradingSignal]; the key of [aiAnalysis] is the symbol and
    [Date.now()]. *)
Definition generateTradingSignal (sym : string) (s : Server)
  : Completion (TradingSignal num) * Server :=
  match analyzeMarketWithAI sym s with
  | (Throw e, s) => (Throw e, s)
  | (Return a, s) =>
      let '(now, s) := new_Date s in
      let s := set_aiAnalysis (<[(sym, now) := a]> (aiAnalysis s)) s in
      let '(r, s) := Math_random s in
      (Return {| analysis := a;
                 entryPrice := mul (targetPrice a) (lit 0.999);
                 quantity := add (floor (mul r (lit 100))) (lit 25);
                 timeframe := "5min" |}, s)
  end.

(** *** The routes that look a symbol up *)

Inductive Request :=
| GET_market_indices
| GET_market_index (sym : string)
| GET_options_chain (sym expiry : string)
| POST_analyze_market (sym : string)
| POST_trading_signal (sym : string).

(** The body of a response, before serialisation.  [JIndices] stands for
    the array of the table's values. *)
Inductive Json :=
| JIndices (data : gmap string MarketIndex)
| JIndex (data : MarketIndex)
| JOptions (options : list (OptionQuote num))
| JAnalysis (a : Analysis num)
| JSignal (t : TradingSignal num)
| JError (error : string).

Record Response := { status : Z; body : Json }.

Definition handle (req : Request) (s : Server) : Response * Server :=
  match req with
  | GET_market_indices =>
      ({| status := 200; body := JIndices (marketData s) |}, s)
  | GET_market_index sym =>
      let sym := toUpperCase sym in
      match marketData s !! sym with
      | None => ({| status := 404; body := JError "Market data not found" |}, s)
      | Some data => ({| status := 200; body := JIndex data |}, s)
      end
  | GET_options_chain sym expiry =>
      let sym := toUpperCase sym in
      let options := default [] (optionsData s !! sym) in
      ({| status := 200; body := JOptions options |}, s)
  | POST_analyze_market sym =>
      let sym := toUpperCase sym in
      match analyzeMarketWithAI sym s with
      | (Return a, s) => ({| status := 200; body := JAnalysis a |}, s)
      | (Throw _, s) => ({| status := 500; body := JError "AI analysis failed" |}, s)
      end
  | POST_trading_signal sym =>
      let sym := toUpperCase sym in
      match generateTradingSignal sym s with
      | (Return t, s) => ({| status := 200; body := JSignal t |}, s)
      | (Throw _, s) =>
          ({| status := 500; body := JError "Signal generation failed" |}, s)
      end
  end.

(** *** The event loop *)

Inductive Event :=
| Tick                        (* the [setInterval] timer fires *)
| Connection                  (* a viewer completes the handshake *)
| SocketClosing (c : nat)     (* the closing handshake of socket [c] starts *)
| SocketClose (c : nat)       (* ['close'] fires on socket [c] *)
| SocketError (c : nat)       (* ['error'] fires on socket [c] *)
| Http (req : Request).

#[export] Instance Request_eq_dec : EqDecision Request.
Proof. solve_decision. Defined.

#[export] Instance Event_eq_dec : EqDecision Event.
Proof. solve_decision. Defined.

(** One callback.  An exception that leaves a callback ends the process:
    the run stops with [Throw]. *)
Definition step (e : Event) (s : Server) : Completion Server :=
  match e with
  | Tick => updateMarketData s
  | Connection => let '(ws, s) := completeUpgrade s in onConnection ws s
  | SocketClosing c => Return (socketClosing c s)
  | SocketClose c => Return (socketClose c s)
  | SocketError c => Return s
  | Http req => Return (snd (handle req s))
  end.

Definition run (es : list Event) (s : Server) : Completion Server :=
  forEach step es s.

(** What socket [c] was given to transmit, in order. *)
Definition received (c : nat) (s : Server) : list Message :=
  map snd (filter (fun f => fst f = c) (wire s)).

End Program.

Arguments Json num : clear implicits.
Arguments Response num : clear implicits.

(** ** What the callbacks leave behind

    No callback of the model throws (lemmas [broadcastToClients_Return]
    to [run_Return] below); these are the states they return. *)

Section Effects.

Context {num : Type} `{Number num}.

Abbreviation Server := (Server num).
Abbreviation MarketIndex := (MarketIndex num).
Abbreviation Message := (Message num).

(** The frames of [w] addressed to socket [c]. *)
Definition inbox (c : nat) (w : list (nat * Message)) : list Message :=
  map snd (filter (fun f => fst f = c) w).

(** [data] handed to every open socket of the registry, in its order. *)
Definition fanOut (data : Message) (s : Server) : Server :=
  set_wire
    (wire s ++ map (fun ws => (sock ws, data))
                   (filter (fun ws => readyState ws = OPEN) (clients s))) s.

Definition updateOne (sym : string) (s : Server) : Server :=
  match marketData s !! sym with
  | Some current =>
      let '(r1, s) := Math_random s in
      let '(r2, s) := Math_random s in
      let '(now, s) := new_Date s in
      let updated := updatedData current r1 r2 now in
      fanOut (marketUpdate sym updated)
             (set_marketData (<[sym := updated]> (marketData s)) s)
  | None => s
  end.

Definition tick (s : Server) : Server :=
  foldl (fun s sym => updateOne sym s) s symbols.

Definition connect (s : Server) : Server :=
  let '(ws, s) := completeUpgrade s in
  set_wire (wire s ++ [(sock ws, initialData (marketData s))]) s.

Definition next (e : Event) (s : Server) : Server :=
  match e with
  | Tick => tick s
  | Connection => connect s
  | SocketClosing c => socketClosing c s
  | SocketClose c => socketClose c s
  | SocketError c => s
  | Http req => snd (handle req s)
  end.

Definition after (es : list Event) (s : Server) : Server :=
  foldl (fun s e => next e s) s es.

(** *** Vocabulary of the statements *)

Definition tracked : gset string := list_to_set symbols.

Definition isUpdate (m : Message) : Prop :=
  match m with
  | marketUpdate _ _ => True
  | initialData _ => False
  end.

Definition updateSymbolOf (m : Message) : option string :=
  match m with
  | marketUpdate sym _ => Some sym
  | initialData _ => None
  end.

(** Socket [c] is registered and open. *)
Definition connected (c : nat) (s : Server) : Prop :=
  {| sock := c; readyState := OPEN |} ∈ clients s.

(** Event [e] starts or completes the closing of socket [c]. *)
Definition closes (c : nat) (e : Event) : Prop :=
  e = SocketClosing c ∨ e = SocketClose c.

Definition ticks (es : list Event) : nat :=
  length (filter (fun e => e = Tick) es).

(** The invariant of the registry and the wire: sockets are numbered below
    [accepted], once each, and only they were sent anything. *)
Record consistent (s : Server) : Prop := {
  clients_accepted : ∀ ws, ws ∈ clients s → (sock ws < accepted s)%nat;
  clients_NoDup : NoDup (map sock (clients s));
  wire_accepted : ∀ f, f ∈ wire s → (fst f < accepted s)%nat
}.

Definition notFound (r : Response num) : Prop := status r = 404.

(** The message one round of the loop of [updateMarketData] broadcasts. *)
Definition announce (sym : string) (s : Server) : list Message :=
  match marketData s !! sym with
  | Some current =>
      [marketUpdate sym
         (updatedData current (entropy s (drawn s)) (entropy s (S (drawn s)))
                      (clock s (read s)))]
  | None => []
  end.

Fixpoint announcements (syms : list string) (s : Server) : list Message :=
  match syms with
  | [] => []
  | sym :: syms => announce sym s ++ announcements syms (updateOne sym s)
  end.

(** The messages broadcast while [es] are handled from [s], in order. *)
Fixpoint broadcasts (es : list Event) (s : Server) : list Message :=
  match es with
  | [] => []
  | e :: es =>
      (match e with Tick => announcements symbols s | _ => [] end)
      ++ broadcasts es (next e s)
  end.

(** What no callback but a connection or a close changes. *)
Record frame (s s' : Server) : Prop := {
  frame_clients : clients s' = clients s;
  frame_accepted : accepted s' = accepted s;
  frame_optionsData : optionsData s' = optionsData s;
  frame_entropy : entropy s' = entropy s;
  frame_clock : clock s' = clock s;
  frame_dom : dom (marketData s') = dom (marketData s)
}.

(** A viewer that cannot take the message is gone from the registry
    when the broadcast returns. *)
Definition dropsFailedViewers (data : Message) (s : Server) : Prop :=
  ∀ ws, ws ∈ clients s → readyState ws ≠ OPEN →
        ∃ s', broadcastToClients data s = Return s' ∧ ws ∉ clients s'.

(** Every route that takes a symbol answers "not found". *)
Definition answersNotFound (sym expiry : string) (s : Server) : Prop :=
  notFound (fst (handle (GET_market_index sym) s))
  ∧ notFound (fst (handle (GET_options_chain sym expiry) s))
  ∧ notFound (fst (handle (POST_analyze_market sym) s))
  ∧ notFound (fst (handle (POST_trading_signal sym) s)).

(** The new price is within one percent of the old one. *)
Definition withinOnePercent (old new : num) : Prop :=
  (toQ old * (99 # 100) <= toQ new <= toQ old * (101 # 100))%Q.

(** The invariant of a Quote, up to [tol]: [chg] is the difference of
    the prices and [pct] is [chg] in percent of the old price. *)
Definition changeInvariant (tol : Q) (old new chg pct : num) : Prop :=
  (Qabs (toQ chg - (toQ new - toQ old)) <= tol
   ∧ Qabs (toQ pct - toQ chg / toQ old * 100) <= tol)%Q.

(** A process to evaluate: [Math.random] always returns [r] and the
    clock counts. *)
Definition demo (r : Q) : Server :=
  boot (fun _ => lit r) (fun n => Z.of_nat n).

(** The stored price, change and percent change of a symbol. *)
Definition stored (sym : string) (s : Server) : option (num * num * num) :=
  (fun q => (price q, change q, changePercent q)) <$> marketData s !! sym.

(** [demo r] with the price of NIFTY set to 100.00. *)
Definition nifty100 : MarketIndex :=
  {| id_ := 2; symbol := "NIFTY"; name := "Nifty 50"; price := lit 100;
     change := lit 125.40; changePercent := lit 0.58; volume := lit 987654;
     timestamp := 8 |}.

Definition demo100 (r : Q) : Server :=
  set_marketData (<["NIFTY" := nifty100]> (marketData (demo r))) (demo r).

End Effects.

(** The entry of NIFTY when the process starts. *)
Definition nifty0 : MarketIndex Q :=
  {| id_ := 2; symbol := "NIFTY"; name := "Nifty 50"; price := 21845.30%Q;
     change := 125.40%Q; changePercent := 0.58%Q; volume := 987654%Q;
     timestamp := 8 |}.

(** After a tick from [demo r], binary64 stores for [sym] the values
    nearest to the price, change and percent change that the rational
    arithmetic stores. *)
Definition agree (r : Q) (sym : string) : bool :=
  match stored sym (tick (demo (num:=float) r)),
        stored sym (tick (demo (num:=Q) r)) with
  | Some (p, c, pc), Some (p', c', pc') =>
      PrimFloat.Leibniz.eqb p (lit p') && PrimFloat.Leibniz.eqb c (lit c')
      && PrimFloat.Leibniz.eqb pc (lit pc')
  | _, _ => false
  end.

(** Prices do not fall below one cent. *)
Definition priced (s : Server Q) : Prop :=
  ∀ sym q, marketData s !! sym = Some q → (1 # 100 <= price q)%Q.

(** ** What a viewer holds *)

Section Replay.
Context {num : Type} `{Number num}.
Abbreviation Server := (Server num).
Abbreviation MarketIndex := (MarketIndex num).
Abbreviation Message := (Message num).

(** The table a viewer holds when it takes a snapshot as its table and
    an update as the new entry of its symbol. *)
Definition applyMessage (view : gmap string MarketIndex) (m : Message)
  : gmap string MarketIndex :=
  match m with
  | initialData data => data
  | marketUpdate sym data => <[sym := data]> view
  end.

Definition replay (ms : list Message) : gmap string MarketIndex :=
  foldl applyMessage ∅ ms.

(** The sockets of the registry that are open. *)
Definition openSockets (s : Server) : list WebSocket :=
  filter (fun ws => readyState ws = OPEN) (clients s).

(** The identity of an entry: what [initializeDemoData] gives it and a
    tick copies. *)
Definition identities : list (Z * string * string) :=
  map (fun row : Z * string * string * Q * Q * Q * Q =>
         let '(i, sym, nm, _, _, _, _) := row in (i, sym, nm))
      marketIndices.

(** Every open socket holds the table. *)
Definition inSync (s : Server) : Prop :=
  ∀ c, connected c s → replay (received c s) = marketData s.

(** The entry stored under [sym] is one of the four loaded ones. *)
Definition identified (s : Server) : Prop :=
  ∀ sym q, marketData s !! sym = Some q →
           symbol q = sym ∧ (id_ q, sym, name q) ∈ identities.

End Replay.

(** ** The desk: portfolios, positions, alerts and trades *)

(** Comparisons of numbers: [===], [<] and [Math.abs]. *)
Class Relations (num : Type) := {
  same : num -> num -> bool;
  less : num -> num -> bool;
  magnitude : num -> num
}.

#[export] Instance exact_relations : Relations Q := {|
  same := Qeq_bool;
  less := fun x y => negb (Qle_bool y x);
  magnitude := Qabs
|}.

#[export] Instance binary64_relations : Relations float := {|
  same := PrimFloat.eqb;
  less := PrimFloat.ltb;
  magnitude := PrimFloat.abs
|}.

(** A [Map] with numbers as keys, in insertion order: [set] on a key of
    the map replaces its value in place, [set] on a new key appends. *)
Fixpoint mapSet {V} (k : Z) (v : V) (m : list (Z * V)) : list (Z * V) :=
  match m with
  | [] => [(k, v)]
  | (k', v') :: m => if k =? k' then (k, v) :: m else (k', v') :: mapSet k v m
  end.

Definition mapGet {V} (k : Z) (m : list (Z * V)) : option V :=
  snd <$> List.find (fun e => k =? fst e) m.

(** [Array.from(m.values())] and [m.size] *)
Definition values {V} (m : list (Z * V)) : list V := map snd m.
Definition size {V} (m : list (Z * V)) : Z := Z.of_nat (length m).

(** The keys of a table are 1, 2, ... in the order of creation and every
    record carries its key as its id. *)
Definition numbered {V} (idOf : V -> Z) (m : list (Z * V)) : Prop :=
  map fst m = map Z.of_nat (seq 1 (length m))
  ∧ Forall (fun e => idOf (snd e) = fst e) m.

Section DeskModel.

Context {num : Type} `{Number num} `{Relations num}.

Abbreviation Server := (Server num).

(** A value of a request body as the handlers use it: stored, sent back
    and compared with [===].  [JObject] stands for any array or object:
    two of them are never the same object here, as they come from
    different requests. *)
Inductive JsValue :=
| JUndefined
| JNull
| JBool (b : bool)
| JNumber (n : num)
| JString (s : string)
| JObject.

Definition strictEq (a b : JsValue) : bool :=
  match a, b with
  | JUndefined, JUndefined => true
  | JNull, JNull => true
  | JBool x, JBool y => Bool.eqb x y
  | JNumber x, JNumber y => same x y
  | JString x, JString y => String.eqb x y
  | _, _ => false
  end.

(** [x || 0] for a number [x]: 0 when [x] is 0 or NaN. *)
Definition orZero (x : num) : num :=
  if same x (lit 0) || negb (same x x) then lit 0 else x.

Record Portfolio := {
  pf_id : Z;
  pf_userId : JsValue;
  totalValue : num;
  availableCash : num;
  todayPnL : num;
  updatedAt : Z
}.

Record Position := {
  pos_id : Z;
  pos_userId : JsValue;
  pos_symbol : JsValue;
  pos_quantity : num;
  avgPrice : num;
  currentPrice : num;
  pnl : num;
  positionType : JsValue;
  createdAt : Z
}.

Record Alert := {
  al_id : Z;
  al_userId : JsValue;
  al_symbol : JsValue;
  condition : JsValue;
  al_targetPrice : num;
  isActive : bool;
  isTriggered : bool;
  al_createdAt : Z;
  triggeredAt : option Z
}.

(** The two shapes of record kept in [trades]: the one of [/api/trade]
    and the one of [/api/ai/execute-trade]. *)
Inductive Trade :=
| trade (id : Z) (userId symbol tradeType : JsValue) (quantity price_ : num)
        (status_ : string) (executedAt : Z)
| aiTrade (id : Z) (symbol action : JsValue) (quantity : num)
          (orderType : JsValue) (status_ : string) (executedPrice : num)
          (executedAt : Z).

Record RiskAssessment := {
  portfolioValue : num;
  totalPnL : num;
  riskScore : num;
  risk : string;
  recommendations : list string;
  assessedAt : Z
}.

Record Desk := {
  portfolios : list (Z * Portfolio);
  positions : list (Z * Position);
  priceAlerts : list (Z * Alert);
  trades : list (Z * Trade)
}.

(** The part of [initializeDemoData] that fills the desk: its three
    dates are the first three the clock gives. *)
Definition initializeDesk (clock : nat -> Z) : Desk :=
  {| portfolios :=
       mapSet 1 {| pf_id := 1; pf_userId := JNumber (lit 1);
                   totalValue := lit 547892.00; availableCash := lit 123567.00;
                   todayPnL := lit 12456.00; updatedAt := clock 0%nat |} [];
     positions :=
       mapSet 2 {| pos_id := 2; pos_userId := JNumber (lit 1);
                   pos_symbol := JString "BANKNIFTY 47500 PE";
                   pos_quantity := lit 50; avgPrice := lit 156.75;
                   currentPrice := lit 134.25; pnl := lit (-1125.00);
                   positionType := JString "short"; createdAt := clock 2%nat |}
         (mapSet 1 {| pos_id := 1; pos_userId := JNumber (lit 1);
                      pos_symbol := JString "BANKNIFTY 48000 CE";
                      pos_quantity := lit 100; avgPrice := lit 287.50;
                      currentPrice := lit 330.00; pnl := lit 4250.00;
                      positionType := JString "long";
                      createdAt := clock 1%nat |} []);
     priceAlerts := [];
     trades := [] |}.

(** The time that the reading after the next [k] readings of the clock
    gives. *)
Definition timeAt (s : Server) (k : nat) : Z := clock s (k + read s)%nat.

(** The whole process: the market side and the desk.  The market side
    reads the clock after the desk was filled. *)
Definition bootWorld (entropy : nat -> num) (clock : nat -> Z) : Server * Desk :=
  (boot entropy (fun n => clock (n + 3)%nat), initializeDesk clock).

(** The requests of the desk.  A number among the arguments is what
    [parseInt] or [parseFloat] returned for the parameter or the field
    of that name; the other arguments are the fields of the body. *)
Inductive DeskRequest :=
| GET_portfolio (userId : num)
| POST_portfolio (userId : JsValue) (totalValue availableCash todayPnL : num)
| GET_positions (userId : num)
| POST_positions (userId symbol : JsValue)
                 (quantity avgPrice currentPrice pnl : num)
                 (positionType : JsValue)
| GET_alerts (userId : num)
| POST_alerts (userId symbol condition : JsValue) (targetPrice : num)
| POST_trade (userId symbol tradeType : JsValue) (quantity price_ : num)
| POST_execute_trade (symbol action : JsValue) (quantity : num)
                     (orderType : JsValue)
| GET_risk_assessment (userId : num).

Inductive DeskJson :=
| JPortfolio (p : Portfolio)
| JPositions (ps : list Position)
| JPosition (p : Position)
| JAlerts (als : list Alert)
| JAlert (a : Alert)
| JTrade (t : Trade)
| JRisk (r : RiskAssessment)
| JFailure (error : string).

Record DeskResponse := { code : Z; content : DeskJson }.

(** [app.post('/api/trade', ...)]: the test that finds the position of
    the user in the symbol, and what becomes of [positions]. *)
Definition holds (userId symbol : JsValue) (p : Position) : bool :=
  strictEq (pos_userId p) userId && strictEq (pos_symbol p) symbol.


Definition tradePositions (userId symbol tradeType : JsValue)
    (quantity price_ : num) (now : Z) (ps : list (Z * Position))
  : list (Z * Position) :=
  match List.find (holds userId symbol) (values ps) with
  | Some existingPosition =>
      let newQuantity :=
        if strictEq tradeType (JString "buy")
        then add (pos_quantity existingPosition) quantity
        else sub (pos_quantity existingPosition) quantity in
      let updatedPosition :=
        {| pos_id := pos_id existingPosition;
           pos_userId := pos_userId existingPosition;
           pos_symbol := pos_symbol existingPosition;
           pos_quantity := newQuantity;
           avgPrice := avgPrice existingPosition;
           currentPrice := price_;
           pnl := mul (sub price_ (avgPrice existingPosition)) newQuantity;
           positionType := positionType existingPosition;
           createdAt := createdAt existingPosition |} in
      mapSet (pos_id existingPosition) updatedPosition ps
  | None =>
      if strictEq tradeType (JString "buy")
      then
        let newPosition :=
          {| pos_id := size ps + 1; pos_userId := userId; pos_symbol := symbol;
             pos_quantity := quantity; avgPrice := price_;
             currentPrice := price_; pnl := lit 0;
             positionType := JString "long"; createdAt := now |} in
        mapSet (pos_id newPosition) newPosition ps
      else ps
  end.

Definition riskLevelOf (portfolioRisk : num) : string :=
  if less portfolioRisk (lit 2) then "LOW"
  else if less portfolioRisk (lit 5) then "MEDIUM" else "HIGH".

(** [app.get('/api/ai/risk-assessment/:userId', ...)] after its wait:
    the assessment of the portfolio and the positions read before it. *)
Definition riskAssessment (portfolio : Portfolio)
    (userPositions : list Position) (now : Z) : RiskAssessment :=
  let totalPnL := foldl (fun sum pos => add sum (pnl pos)) (lit 0)
                        userPositions in
  let portfolioRisk :=
    mul (div (magnitude totalPnL) (totalValue portfolio)) (lit 100) in
  {| portfolioValue := totalValue portfolio;
     totalPnL := totalPnL;
     riskScore := portfolioRisk;
     risk := riskLevelOf portfolioRisk;
     recommendations :=
       ["Consider diversifying across different sectors";
        "Monitor position sizing relative to portfolio value";
        "Set stop-losses for all open positions"];
     assessedAt := now |}.

(** The handlers; [id] and the dates are read in the order of the source.
    The two routes that wait a second are one event each: [execute-trade]
    does all its reading after the wait, so its event is the moment it
    resumes; [risk-assessment] reads the tables before the wait and
    only the clock after it, so its event is the moment of the request,
    and the reading of the clock is taken with it. *)
Definition handleDesk (req : DeskRequest) (w : Server * Desk)
  : DeskResponse * (Server * Desk) :=
  let '(s, d) := w in
  match req with
  | GET_portfolio userId =>
      match List.find (fun p => strictEq (pf_userId p) (JNumber userId))
                      (values (portfolios d)) with
      | None => ({| code := 404; content := JFailure "Portfolio not found" |}, w)
      | Some portfolio => ({| code := 200; content := JPortfolio portfolio |}, w)
      end
  | POST_portfolio userId tv ac pl =>
      let id := size (portfolios d) + 1 in
      let '(now, s) := new_Date s in
      let portfolio :=
        {| pf_id := id; pf_userId := userId; totalValue := tv;
           availableCash := ac; todayPnL := pl; updatedAt := now |} in
      ({| code := 201; content := JPortfolio portfolio |},
       (s, {| portfolios := mapSet id portfolio (portfolios d);
              positions := positions d; priceAlerts := priceAlerts d;
              trades := trades d |}))
  | GET_positions userId =>
      ({| code := 200;
          content :=
            JPositions (filter (fun p => strictEq (pos_userId p) (JNumber userId)
                                         = true)
                               (values (positions d))) |}, w)
  | POST_positions userId symbol quantity avg cur pl positionType =>
      let id := size (positions d) + 1 in
      let '(now, s) := new_Date s in
      let position :=
        {| pos_id := id; pos_userId := userId; pos_symbol := symbol;
           pos_quantity := quantity; avgPrice := avg; currentPrice := cur;
           pnl := pl; positionType := positionType; createdAt := now |} in
      ({| code := 201; content := JPosition position |},
       (s, {| portfolios := portfolios d;
              positions := mapSet id position (positions d);
              priceAlerts := priceAlerts d; trades := trades d |}))
  | GET_alerts userId =>
      ({| code := 200;
          content :=
            JAlerts (filter (fun a => strictEq (al_userId a) (JNumber userId)
                                      = true)
                            (values (priceAlerts d))) |}, w)
  | POST_alerts userId symbol cond target =>
      let id := size (priceAlerts d) + 1 in
      let '(now, s) := new_Date s in
      let alert :=
        {| al_id := id; al_userId := userId; al_symbol := symbol;
           condition := cond; al_targetPrice := target; isActive := true;
           isTriggered := false; al_createdAt := now; triggeredAt := None |} in
      ({| code := 201; content := JAlert alert |},
       (s, {| portfolios := portfolios d; positions := positions d;
              priceAlerts := mapSet id alert (priceAlerts d);
              trades := trades d |}))
  | POST_trade userId symbol tradeType quantity price_ =>
      let id := size (trades d) + 1 in
      let '(now, s) := new_Date s in
      let t := trade id userId symbol tradeType quantity price_ "EXECUTED" now in
      let trades' := mapSet id t (trades d) in
      let existing :=
        List.find (holds userId symbol) (values (positions d)) in
      let '(created, s) :=
        match existing with
        | None => if strictEq tradeType (JString "buy")
                  then new_Date s else (0, s)
        | Some _ => (0, s)
        end in
      ({| code := 201; content := JTrade t |},
       (s, {| portfolios := portfolios d;
              positions :=
                tradePositions userId symbol tradeType quantity price_ created
                               (positions d);
              priceAlerts := priceAlerts d; trades := trades' |}))
  | POST_execute_trade symbol action quantity orderType =>
      let '(id, s) := new_Date s in
      let entry :=
        match symbol with
        | JString sym => marketData s !! sym
        | _ => None
        end in
      let executedPrice :=
        match entry with
        | Some data => orZero (price data)
        | None => lit 0
        end in
      let '(now, s) := new_Date s in
      let t := aiTrade id symbol action quantity orderType "EXECUTED"
                       executedPrice now in
      ({| code := 200; content := JTrade t |},
       (s, {| portfolios := portfolios d; positions := positions d;
              priceAlerts := priceAlerts d;
              trades := mapSet id t (trades d) |}))
  | GET_risk_assessment userId =>
      let portfolio :=
        List.find (fun p => strictEq (pf_userId p) (JNumber userId))
                  (values (portfolios d)) in
      let userPositions :=
        filter (fun p => strictEq (pos_userId p) (JNumber userId) = true)
               (values (positions d)) in
      match portfolio with
      | None => ({| code := 404; content := JFailure "Portfolio not found" |}, w)
      | Some portfolio =>
          let '(now, s) := new_Date s in
          ({| code := 200;
              content := JRisk (riskAssessment portfolio userPositions now) |},
           (s, d))
      end
  end.

(** The events of the whole process. *)
Inductive WorldEvent :=
| Market (e : Event)
| Api (req : DeskRequest).

Definition worldStep (e : WorldEvent) (w : Server * Desk)
  : Completion (Server * Desk) :=
  match e with
  | Market e => s ← step e (fst w); Return (s, snd w)
  | Api req => Return (snd (handleDesk req w))
  end.

Definition worldRun (es : list WorldEvent) (w : Server * Desk)
  : Completion (Server * Desk) :=
  forEach worldStep es w.

(** The same without the completion, for the proofs. *)
Definition worldNext (e : WorldEvent) (w : Server * Desk) : Server * Desk :=
  match e with
  | Market e => (next e (fst w), snd w)
  | Api req => snd (handleDesk req w)
  end.

Definition worldAfter (es : list WorldEvent) (w : Server * Desk)
  : Server * Desk :=
  foldl (fun w e => worldNext e w) w es.

(** What holds of every desk the process reaches, for the three tables
    that only grow. *)
Definition tidy (d : Desk) : Prop :=
  numbered pf_id (portfolios d)
  ∧ numbered pos_id (positions d)
  ∧ numbered al_id (priceAlerts d).

(** An alert as [POST /api/alerts] creates it. *)
Definition untriggered (a : Alert) : Prop :=
  isActive a = true ∧ isTriggered a = false ∧ triggeredAt a = None.

Definition isNumber (v : JsValue) : bool :=
  match v with JNumber _ => true | _ => false end.

(** Orders of one user on one symbol, each a trade type, a quantity and
    a price: the requests they make and the quantity they leave of a
    holding. *)
Definition ordersOf (userId symbol : JsValue)
    (orders : list (JsValue * num * num)) : list WorldEvent :=
  map (fun order => let '(tradeType, quantity, price_) := order in
                    Api (POST_trade userId symbol tradeType quantity price_))
      orders.

Definition netQuantity (held : num) (orders : list (JsValue * num * num))
  : num :=
  foldl (fun held order =>
           let '(tradeType, quantity, _) := order in
           if strictEq tradeType (JString "buy")
           then add held quantity else sub held quantity)
        held orders.

(** The process of the examples: every draw is [r], the clock counts its
    readings. *)
Definition demoWorld (r : Q) : Server * Desk :=
  bootWorld (fun _ => lit r) (fun n => Z.of_nat n).

(** Its portfolio and its first position. *)
Definition demoPortfolio : Portfolio :=
  {| pf_id := 1; pf_userId := JNumber (lit 1); totalValue := lit 547892.00;
     availableCash := lit 123567.00; todayPnL := lit 12456.00;
     updatedAt := 0 |}.

Definition callPosition : Position :=
  {| pos_id := 1; pos_userId := JNumber (lit 1);
     pos_symbol := JString "BANKNIFTY 48000 CE";
     pos_quantity := lit 100; avgPrice := lit 287.50;
     currentPrice := lit 330.00; pnl := lit 4250.00;
     positionType := JString "long"; createdAt := 1 |}.

(** Some events of a session: an alert, a tick, a first buy of NIFTY. *)
Definition sampleEvents : list WorldEvent :=
  [Api (POST_alerts (JNumber (lit 1)) (JString "NIFTY") (JString "above")
                    (lit 22000));
   Market Tick;
   Api (POST_trade (JNumber (lit 1)) (JString "NIFTY") (JString "buy")
                   (lit 10) (lit 21850))].

Definition sampleWorld : Server * Desk :=
  worldAfter sampleEvents (demoWorld 0.75).

End DeskModel.

Arguments JsValue num : clear implicits.
Arguments Portfolio num : clear implicits.
Arguments Position num : clear implicits.
Arguments Alert num : clear implicits.
Arguments Trade num : clear implicits.
Arguments RiskAssessment num : clear implicits.
Arguments Desk num : clear implicits.
Arguments DeskRequest num : clear implicits.
Arguments DeskJson num : clear implicits.
Arguments DeskResponse num : clear implicits.
Arguments WorldEvent num : clear implicits.

(** ** Tactics *)

(** Reduce the arithmetic of the [exact] instance to that of [Q]. *)
Ltac exact_arith :=
  cbn [add sub mul div lit floor toFixed2 toQ exact].
Ltac exact_arith_in_all :=
  cbn [add sub mul div lit floor toFixed2 toQ exact] in *.

(** Refute a hypothesis [H : a <= b] between two closed rationals. *)
Ltac refute_Qle H :=
  apply Qle_bool_iff in H; vm_compute in H; discriminate H.

(** * Proofs *)

Section Totality.

Context {num : Type} `{Number num}.

Abbreviation Server := (Server num).
Abbreviation Message := (Message num).

Lemma set_wire_wire (s : Server) : set_wire (wire s) s = s.
Proof. by destruct s. Qed.

Lemma forEach_send (data : Message) (cl : list WebSocket) (s : Server) :
  forEach (fun client s =>
             if decide (readyState client = OPEN)
             then ws_send client data s else Return s) cl s
  = Return (set_wire
              (wire s ++ map (fun ws => (sock ws, data))
                             (filter (fun ws => readyState ws = OPEN) cl)) s).
Proof.
  revert s. induction cl as [|ws cl IH]; intros s; simpl.
  - by rewrite app_nil_r, set_wire_wire.
  - rewrite filter_cons. unfold ws_send.
    destruct (decide (readyState ws = OPEN)) as [Hopen|Hno]; simpl.
    + rewrite Hopen. simpl. rewrite IH. simpl. by rewrite <- app_assoc.
    + apply IH.
Qed.

Lemma broadcastToClients_Return (data : Message) (s : Server) :
  broadcastToClients data s = Return (fanOut data s).
Proof. apply forEach_send. Qed.

Lemma updateSymbol_Return (sym : string) (s : Server) :
  updateSymbol sym s = Return (updateOne sym s).
Proof.
  unfold updateSymbol, updateOne. destruct (marketData s !! sym); [|done].
  simpl. apply broadcastToClients_Return.
Qed.

Lemma forEach_Return {A S} (f : A -> S -> Completion S) (g : A -> S -> S) :
  (∀ x s, f x s = Return (g x s)) →
  ∀ xs s, forEach f xs s = Return (foldl (fun s x => g x s) s xs).
Proof.
  intros Hfg xs. induction xs as [|x xs IH]; intros s; simpl; [done|].
  rewrite Hfg. simpl. apply IH.
Qed.

Lemma updateMarketData_Return (s : Server) :
  updateMarketData s = Return (tick s).
Proof. apply (forEach_Return updateSymbol updateOne), updateSymbol_Return. Qed.

Lemma map_fold_copy {A} (m : gmap string A) :
  map_fold (fun k x acc => <[k := x]> acc) ∅ m = m.
Proof.
  apply (map_fold_weak_ind (fun r m => r = m)); [done|].
  intros k x m' r _ ->. done.
Qed.

Lemma onConnection_Return (s : Server) :
  (let '(ws, s) := completeUpgrade s in onConnection ws s) = Return (connect s).
Proof.
  unfold connect, completeUpgrade, onConnection, ws_send. simpl.
  by rewrite map_fold_copy.
Qed.

Lemma step_Return (e : Event) (s : Server) : step e s = Return (next e s).
Proof.
  destruct e; simpl; try done.
  - apply updateMarketData_Return.
  - apply onConnection_Return.
Qed.

Lemma run_Return (es : list Event) (s : Server) : run es s = Return (after es s).
Proof. apply (forEach_Return step next), step_Return. Qed.

Lemma after_cons (e : Event) (es : list Event) (s : Server) :
  after (e :: es) s = after es (next e s).
Proof. reflexivity. Qed.

Lemma after_app (es1 es2 : list Event) (s : Server) :
  after (es1 ++ es2) s = after es2 (after es1 s).
Proof. apply foldl_app. Qed.

End Totality.

Section Frames.
Context {num : Type} `{Number num}.
Abbreviation Server := (Server num).
Abbreviation Message := (Message num).

Lemma inbox_app c (w1 w2 : list (nat * Message)) :
  inbox c (w1 ++ w2) = inbox c w1 ++ inbox c w2.
Proof. unfold inbox. by rewrite filter_app, map_app. Qed.

Lemma received_inbox c (s : Server) : received c s = inbox c (wire s).
Proof. reflexivity. Qed.

(** What a fan-out puts into the inbox of [c]: copies of the message. *)
Lemma inbox_fanOut_replicate c (data : Message) (cl : list WebSocket) :
  ∃ n, inbox c (map (fun ws => (sock ws, data)) cl) = replicate n data.
Proof.
  induction cl as [|ws cl [n IH]]; [by exists 0%nat|].
  unfold inbox in *. simpl. rewrite filter_cons. simpl.
  destruct (decide (sock ws = c)).
  - exists (S n). simpl. by rewrite IH.
  - by exists n.
Qed.

Lemma inbox_fanOut_absent c (data : Message) (cl : list WebSocket) :
  c ∉ map sock cl → inbox c (map (fun ws => (sock ws, data)) cl) = [].
Proof.
  induction cl as [|ws cl IH]; [done|]. simpl. intros Hc.
  apply not_elem_of_cons in Hc as [Hne Hc].
  unfold inbox in *. rewrite filter_cons. simpl.
  destruct (decide (sock ws = c)); [congruence|]. by apply IH.
Qed.

(** An open socket registered once gets exactly one copy. *)
Lemma inbox_fanOut_connected c (data : Message) (cl : list WebSocket) :
  NoDup (map sock cl) →
  {| sock := c; readyState := OPEN |} ∈ cl →
  inbox c (map (fun ws => (sock ws, data))
               (filter (fun ws => readyState ws = OPEN) cl)) = [data].
Proof.
  induction cl as [|ws cl IH]; simpl; intros Hnd Hin.
  - by apply elem_of_nil in Hin.
  - apply NoDup_cons in Hnd as [Hfresh Hnd].
    rewrite filter_cons.
    apply elem_of_cons in Hin as [<-|Hin]; simpl.
    + unfold inbox. simpl. rewrite filter_cons. simpl.
      rewrite decide_True by done. simpl. f_equal.
      apply inbox_fanOut_absent. intros Hc. apply Hfresh.
      apply list_elem_of_fmap in Hc as (ws' & -> & Hws').
      apply list_elem_of_fmap. exists ws'. split; [done|].
      by apply list_elem_of_filter in Hws' as [_ ?].
    + assert (sock ws ≠ c) as Hne.
      { intros <-. apply Hfresh. apply list_elem_of_fmap.
        by exists {| sock := sock ws; readyState := OPEN |}. }
      destruct (decide (readyState ws = OPEN)); [|by apply IH].
      simpl. unfold inbox. rewrite filter_cons. simpl.
      rewrite decide_False by done. by apply IH.
Qed.

End Frames.

Section Steps.
Context {num : Type} `{Number num}.
Abbreviation Server := (Server num).
Abbreviation Message := (Message num).

Lemma frame_refl (s : Server) : frame s s.
Proof. by split. Qed.

Lemma frame_trans (s1 s2 s3 : Server) : frame s1 s2 → frame s2 s3 → frame s1 s3.
Proof.
  intros [A1 A2 A3 A4 A5 A6] [B1 B2 B3 B4 B5 B6].
  split; etrans; eassumption.
Qed.

Lemma updateOne_frame sym (s : Server) : frame s (updateOne sym s).
Proof.
  unfold updateOne. destruct (marketData s !! sym) as [current|] eqn:Hsym.
  - split; simpl; try done. rewrite dom_insert_L.
    apply elem_of_dom_2 in Hsym.
    by apply subseteq_union_1_L, singleton_subseteq_l.
  - apply frame_refl.
Qed.

Lemma updateOne_wire sym (s : Server) :
  wire (updateOne sym s)
  = wire s ++ flat_map (fun m => map (fun ws => (sock ws, m))
                                     (filter (fun ws => readyState ws = OPEN)
                                             (clients s)))
                       (announce sym s).
Proof.
  unfold updateOne, announce. destruct (marketData s !! sym); simpl.
  - by rewrite app_nil_r.
  - by rewrite app_nil_r.
Qed.

Lemma consistent_frame (s s' : Server) :
  frame s s' → wire s' = wire s → consistent s → consistent s'.
Proof.
  intros [Hc Ha _ _ _ _] Hw [H1 H2 H3].
  split; rewrite ?Hc, ?Ha, ?Hw; done.
Qed.

Lemma updateOne_consistent sym (s : Server) :
  consistent s → consistent (updateOne sym s).
Proof.
  intros [H1 H2 H3]. destruct (updateOne_frame sym s) as [Hc Ha _ _ _ _].
  split; rewrite ?Hc, ?Ha; try done.
  intros f. rewrite updateOne_wire. intros [Hf|Hf]%elem_of_app; [by apply H3|].
  apply list_elem_of_In, in_flat_map in Hf as (m & _ & Hf).
  apply list_elem_of_In, list_elem_of_fmap in Hf as (ws & -> & Hws).
  apply list_elem_of_filter in Hws as [_ Hws]. simpl. by apply H1.
Qed.

Lemma updateOne_received_connected sym c (s : Server) :
  consistent s → connected c s →
  received c (updateOne sym s) = received c s ++ announce sym s.
Proof.
  intros [_ Hnd _] Hc. rewrite !received_inbox, updateOne_wire, inbox_app.
  f_equal. destruct (announce sym s) as [|m [|m' l]] eqn:Ha; simpl.
  - done.
  - rewrite app_nil_r. by apply inbox_fanOut_connected.
  - unfold announce in Ha. by destruct (marketData s !! sym).
Qed.

Lemma updateOne_received sym c (s : Server) :
  ∃ us, received c (updateOne sym s) = received c s ++ us ∧ Forall isUpdate us.
Proof.
  rewrite !received_inbox, updateOne_wire, inbox_app.
  unfold announce. destruct (marketData s !! sym) as [current|]; simpl.
  - rewrite app_nil_r.
    edestruct (inbox_fanOut_replicate (num:=num) c) as [n Hn]. rewrite Hn.
    eexists. split; [done|]. by apply Forall_replicate.
  - exists []. by split.
Qed.

Lemma updateOne_connected sym c (s : Server) :
  connected c s → connected c (updateOne sym s).
Proof.
  unfold connected. by rewrite (frame_clients _ _ (updateOne_frame sym s)).
Qed.

(** The loop over any list of symbols. *)
Lemma updateAll_frame syms (s : Server) :
  frame s (foldl (fun s sym => updateOne sym s) s syms).
Proof.
  revert s. induction syms as [|sym syms IH]; intros s; simpl.
  - apply frame_refl.
  - eapply frame_trans; [apply updateOne_frame|apply IH].
Qed.

Lemma updateAll_consistent syms (s : Server) :
  consistent s → consistent (foldl (fun s sym => updateOne sym s) s syms).
Proof.
  revert s. induction syms as [|sym syms IH]; intros s Hs; simpl; [done|].
  by apply IH, updateOne_consistent.
Qed.

Lemma updateAll_received_connected syms c (s : Server) :
  consistent s → connected c s →
  received c (foldl (fun s sym => updateOne sym s) s syms)
  = received c s ++ announcements syms s.
Proof.
  revert s. induction syms as [|sym syms IH]; intros s Hs Hc; simpl.
  - by rewrite app_nil_r.
  - rewrite IH by auto using updateOne_consistent, updateOne_connected.
    rewrite updateOne_received_connected by done. by rewrite app_assoc.
Qed.

Lemma updateAll_received syms c (s : Server) :
  ∃ us, received c (foldl (fun s sym => updateOne sym s) s syms)
        = received c s ++ us ∧ Forall isUpdate us.
Proof.
  revert s. induction syms as [|sym syms IH]; intros s; simpl.
  - exists []. by rewrite app_nil_r.
  - destruct (IH (updateOne sym s)) as (us2 & -> & H2).
    destruct (updateOne_received sym c s) as (us1 & -> & H1).
    exists (us1 ++ us2). rewrite app_assoc. split; [done|]. by apply Forall_app.
Qed.

Lemma tick_frame (s : Server) : frame s (tick s).
Proof. apply updateAll_frame. Qed.

Lemma tick_consistent (s : Server) : consistent s → consistent (tick s).
Proof. apply updateAll_consistent. Qed.

Lemma tick_received_connected c (s : Server) :
  consistent s → connected c s →
  received c (tick s) = received c s ++ announcements symbols s.
Proof. apply updateAll_received_connected. Qed.

Lemma tick_received c (s : Server) :
  ∃ us, received c (tick s) = received c s ++ us ∧ Forall isUpdate us.
Proof. apply updateAll_received. Qed.

(** The HTTP handlers leave everything but the AI log and the counters. *)
Lemma analyzeMarketWithAI_frame sym (s : Server) :
  frame s (snd (analyzeMarketWithAI sym s))
  ∧ wire (snd (analyzeMarketWithAI sym s)) = wire s
  ∧ marketData (snd (analyzeMarketWithAI sym s)) = marketData s.
Proof.
  unfold analyzeMarketWithAI. destruct (marketData s !! sym); simpl.
  - match goal with |- context [match ?o with Some _ => _ | None => _ end] =>
      destruct o end; simpl; by repeat split.
  - by repeat split.
Qed.

Lemma generateTradingSignal_frame sym (s : Server) :
  frame s (snd (generateTradingSignal sym s))
  ∧ wire (snd (generateTradingSignal sym s)) = wire s
  ∧ marketData (snd (generateTradingSignal sym s)) = marketData s.
Proof.
  unfold generateTradingSignal.
  destruct (analyzeMarketWithAI_frame sym s) as ([] & Hw & Hm).
  destruct (analyzeMarketWithAI sym s) as [[a|e] s']; simpl in *.
  - repeat split; simpl; try done; congruence.
  - by repeat split.
Qed.

Lemma handle_frame req (s : Server) :
  frame s (snd (handle req s))
  ∧ wire (snd (handle req s)) = wire s
  ∧ marketData (snd (handle req s)) = marketData s.
Proof.
  destruct req as [|sym|sym expiry|sym|sym]; simpl.
  - by repeat split.
  - destruct (marketData s !! toUpperCase sym); by repeat split.
  - by repeat split.
  - pose proof (analyzeMarketWithAI_frame (toUpperCase sym) s) as Hf.
    by destruct (analyzeMarketWithAI (toUpperCase sym) s) as [[a|e] s'].
  - pose proof (generateTradingSignal_frame (toUpperCase sym) s) as Hf.
    by destruct (generateTradingSignal (toUpperCase sym) s) as [[a|e] s'].
Qed.

End Steps.

Section Reach.
Context {num : Type} `{Number num}.
Abbreviation Server := (Server num).
Abbreviation Message := (Message num).

Lemma boot_clients entropy clock : clients (boot (num:=num) entropy clock) = [].
Proof. reflexivity. Qed.

Lemma boot_wire entropy clock : wire (boot (num:=num) entropy clock) = [].
Proof. reflexivity. Qed.

Lemma boot_consistent entropy clock : consistent (boot (num:=num) entropy clock).
Proof.
  split.
  - intros ws Hws. rewrite boot_clients in Hws. by apply elem_of_nil in Hws.
  - rewrite boot_clients. apply NoDup_nil_2.
  - intros f Hf. rewrite boot_wire in Hf. by apply elem_of_nil in Hf.
Qed.

Lemma boot_dom entropy clock : dom (marketData (boot entropy clock)) = tracked.
Proof. reflexivity. Qed.

Lemma boot_optionsData_dom entropy clock :
  dom (optionsData (boot entropy clock)) = {["BANKNIFTY"]}.
Proof. reflexivity. Qed.

Lemma connect_consistent (s : Server) : consistent s → consistent (connect s).
Proof.
  intros [H1 H2 H3]. split; simpl.
  - intros ws [Hws| ->%list_elem_of_singleton]%elem_of_app; simpl; [|lia].
    apply H1 in Hws. lia.
  - rewrite map_app. simpl. apply NoDup_app. split; [done|]. split.
    + intros c Hc Hc'%list_elem_of_singleton.
      apply list_elem_of_fmap in Hc as (ws & -> & Hws). apply H1 in Hws. lia.
    + apply NoDup_singleton.
  - intros f [Hf| ->%list_elem_of_singleton]%elem_of_app; simpl; [|lia].
    apply H3 in Hf. lia.
Qed.

Lemma socketClosing_consistent c (s : Server) :
  consistent s → consistent (socketClosing c s).
Proof.
  intros [H1 H2 H3]. split; simpl; [| |done].
  - intros ws (ws' & -> & Hws')%list_elem_of_fmap.
    apply H1 in Hws'. by destruct (decide (sock ws' = c)) as [<-|].
  - rewrite <- list_fmap_compose.
    erewrite list_fmap_ext; [exact H2|].
    intros i ws' _. simpl. by destruct (decide (sock ws' = c)).
Qed.

Lemma socketClose_consistent c (s : Server) :
  consistent s → consistent (socketClose c s).
Proof.
  intros [H1 H2 H3]. split; simpl; [| |done].
  - intros ws [_ Hws]%list_elem_of_filter. by apply H1.
  - eapply sublist_NoDup; [exact H2|]. apply fmap_sublist, sublist_filter.
Qed.

Lemma next_consistent e (s : Server) : consistent s → consistent (next e s).
Proof.
  intros Hs. destruct e; cbn [next].
  - by apply tick_consistent.
  - by apply connect_consistent.
  - by apply socketClosing_consistent.
  - by apply socketClose_consistent.
  - done.
  - destruct (handle_frame req s) as (Hf & Hw & _).
    by apply (consistent_frame s).
Qed.

Lemma next_dom e (s : Server) : dom (marketData (next e s)) = dom (marketData s).
Proof.
  destruct e; cbn [next]; try done.
  - apply (frame_dom _ _ (tick_frame s)).
  - by destruct (handle_frame req s) as (_ & _ & ->).
Qed.

Lemma next_optionsData e (s : Server) : optionsData (next e s) = optionsData s.
Proof.
  destruct e; cbn [next]; try done.
  - apply (frame_optionsData _ _ (tick_frame s)).
  - by destruct (handle_frame req s) as ([] & _ & _).
Qed.

Lemma after_consistent es (s : Server) : consistent s → consistent (after es s).
Proof.
  revert s. induction es as [|e es IH]; intros s Hs; simpl; [done|].
  by apply IH, next_consistent.
Qed.

Lemma after_dom es (s : Server) : dom (marketData (after es s)) = dom (marketData s).
Proof.
  revert s. induction es as [|e es IH]; intros s; simpl; [done|].
  by rewrite IH, next_dom.
Qed.

Lemma after_optionsData es (s : Server) : optionsData (after es s) = optionsData s.
Proof.
  revert s. induction es as [|e es IH]; intros s; simpl; [done|].
  by rewrite IH, next_optionsData.
Qed.

End Reach.

Section Viewers.
Context {num : Type} `{Number num}.
Abbreviation Server := (Server num).
Abbreviation Message := (Message num).

Lemma received_fresh c (s : Server) :
  consistent s → (accepted s ≤ c)%nat → received c s = [].
Proof.
  intros [_ _ Hw] Hc. unfold received.
  destruct (filter _ (wire s)) as [|f l] eqn:Hf; [done|].
  assert (f ∈ filter (fun f : nat * Message => f.1 = c) (wire s)) as Hin
    by (rewrite Hf; left).
  apply list_elem_of_filter in Hin as [<- Hin]. apply Hw in Hin. lia.
Qed.

Lemma accepted_next e (s : Server) :
  accepted (next e s)
  = if decide (e = Connection) then S (accepted s) else accepted s.
Proof.
  destruct e; cbn [next]; try done.
  - apply (frame_accepted _ _ (tick_frame s)).
  - by destruct (handle_frame req s) as ([] & _ & _).
Qed.

(** A socket accepted earlier is sent nothing but updates. *)
Lemma next_received_old e c (s : Server) :
  consistent s → (c < accepted s)%nat →
  ∃ us, received c (next e s) = received c s ++ us ∧ Forall isUpdate us.
Proof.
  intros Hs Hc. destruct e; cbn [next].
  - apply tick_received.
  - exists []. rewrite app_nil_r. split; [|done].
    rewrite !received_inbox. simpl. rewrite inbox_app.
    unfold inbox at 2. simpl. rewrite filter_cons. simpl.
    rewrite decide_False by lia. by rewrite app_nil_r.
  - exists []. by rewrite app_nil_r.
  - exists []. by rewrite app_nil_r.
  - exists []. by rewrite app_nil_r.
  - exists []. rewrite app_nil_r. split; [|done].
    rewrite !received_inbox. by destruct (handle_frame req s) as (_ & -> & _).
Qed.

(** The socket a connection creates is sent the table, and nothing else. *)
Lemma connect_received (s : Server) :
  consistent s →
  received (accepted s) (connect s) = [initialData (marketData s)].
Proof.
  intros Hs. rewrite received_inbox. simpl. rewrite inbox_app.
  rewrite <- received_inbox, received_fresh by done.
  unfold inbox. simpl. rewrite filter_cons. simpl. by rewrite decide_True.
Qed.

Lemma next_connected e c (s : Server) :
  connected c s → ¬ closes c e → connected c (next e s).
Proof.
  unfold connected, closes. intros Hc Hne. destruct e; cbn [next].
  - by rewrite (frame_clients _ _ (tick_frame s)).
  - apply elem_of_app. by left.
  - apply list_elem_of_fmap. eexists. split; [|exact Hc]. simpl.
    rewrite decide_False; [done|]. intros ->. by apply Hne; left.
  - apply list_elem_of_filter. split; [|done]. simpl.
    intros ->. by apply Hne; right.
  - done.
  - by destruct (handle_frame req s) as ([-> _ _ _ _ _] & _ & _).
Qed.

Lemma next_received_connected e c (s : Server) :
  consistent s → connected c s →
  received c (next e s)
  = received c s ++ match e with Tick => announcements symbols s | _ => [] end.
Proof.
  intros Hs Hc.
  assert (c < accepted s)%nat as Hlt by apply (clients_accepted s Hs _ Hc).
  destruct e; cbn [next]; rewrite ?app_nil_r; try done.
  - by apply tick_received_connected.
  - rewrite !received_inbox. simpl. rewrite inbox_app.
    unfold inbox at 2. simpl. rewrite filter_cons. simpl.
    rewrite decide_False by lia. by rewrite app_nil_r.
  - rewrite !received_inbox. by destruct (handle_frame req s) as (_ & -> & _).
Qed.

Lemma after_received_connected es c (s : Server) :
  consistent s → connected c s → Forall (fun e => ¬ closes c e) es →
  received c (after es s) = received c s ++ broadcasts es s.
Proof.
  revert s. induction es as [|e es IH]; intros s Hs Hc Hes.
  - cbn. by rewrite app_nil_r.
  - rewrite after_cons. cbn [broadcasts]. apply Forall_cons in Hes as [He Hes].
    rewrite IH by auto using next_consistent, next_connected.
    rewrite next_received_connected by done. by rewrite app_assoc.
Qed.

Lemma announcements_isUpdate syms (s : Server) :
  Forall isUpdate (announcements syms s).
Proof.
  revert s. induction syms as [|sym syms IH]; intros s; simpl; [done|].
  apply Forall_app. split; [|apply IH].
  unfold announce. destruct (marketData s !! sym); by repeat constructor.
Qed.

Lemma announcements_symbols syms (s : Server) :
  (∀ sym, sym ∈ syms → sym ∈ dom (marketData s)) →
  omap updateSymbolOf (announcements syms s) = syms.
Proof.
  revert s. induction syms as [|sym syms IH]; intros s Hdom; simpl; [done|].
  rewrite omap_app, IH.
  - unfold announce.
    destruct (marketData s !! sym) as [current|] eqn:Hsym; [done|].
    apply not_elem_of_dom in Hsym. destruct Hsym. apply Hdom. left.
  - intros sym' Hsym'. rewrite (frame_dom _ _ (updateOne_frame sym s)).
    apply Hdom. by right.
Qed.

Lemma broadcasts_isUpdate es (s : Server) : Forall isUpdate (broadcasts es s).
Proof.
  revert s. induction es as [|e es IH]; intros s; cbn [broadcasts]; [done|].
  apply Forall_app. split; [|apply IH].
  destruct e; try done. apply announcements_isUpdate.
Qed.

Lemma broadcasts_symbols es (s : Server) :
  dom (marketData s) = tracked →
  omap updateSymbolOf (broadcasts es s) = mjoin (replicate (ticks es) symbols).
Proof.
  revert s. induction es as [|e es IH]; intros s Hdom; [done|].
  cbn [broadcasts]. rewrite omap_app, IH by (by rewrite next_dom).
  unfold ticks. rewrite filter_cons.
  destruct e; try done.
  rewrite decide_True by done. cbn [length replicate mjoin list_join].
  rewrite announcements_symbols; [done|].
  intros sym Hsym. rewrite Hdom. unfold tracked. by apply elem_of_list_to_set.
Qed.

End Viewers.

Section Claims.
Context {num : Type} `{Number num}.
Abbreviation Server := (Server num).
Abbreviation Message := (Message num).

(** C1.  Every viewer connection is sent exactly one snapshot, first.
    After any run of the process, a socket number [c] either has not
    been accepted yet and was sent nothing, or it was created by a
    [Connection] of the run, and what it was sent is one [initialData]
    message holding the whole quote table as of that connection (with
    the four tracked symbols), followed by [marketUpdate] messages only.
    The run never throws. *)
Theorem snapshot_before_updates entropy clock (es : list Event) (c : nat) :
  ∃ s, run es (boot entropy clock) = Return s ∧
    ((accepted s ≤ c)%nat ∧ received c s = []
     ∨ ∃ pre post s0 updates,
         es = pre ++ Connection :: post ∧
         run pre (boot entropy clock) = Return s0 ∧
         c = accepted s0 ∧
         dom (marketData s0) = tracked ∧
         received c s = initialData (marketData s0) :: updates ∧
         Forall isUpdate updates).
Proof.
  exists (after es (boot entropy clock)). split; [apply run_Return|].
  set (b := boot entropy clock).
  assert ((accepted (after es b) ≤ c)%nat ∧ received c (after es b) = []
     ∨ (c < accepted (after es b))%nat ∧ ∃ pre post updates,
         es = pre ++ Connection :: post ∧
         c = accepted (after pre b) ∧
         received c (after es b) = initialData (marketData (after pre b)) :: updates ∧
         Forall isUpdate updates) as Hinv.
  { induction es as [|e es IH] using rev_ind.
    - left. split; [|done]. cbn. lia.
    - rewrite after_app. change (after [e] ?s) with (next e s).
      assert (consistent (after es b)) as Hs
        by apply after_consistent, boot_consistent.
      rewrite accepted_next.
      destruct IH as [[Hc Hr]|(Hc & pre & post & us & -> & -> & Hr & Hus)].
      + destruct (decide (e = Connection)) as [->|He].
        * destruct (decide (c = accepted (after es b))) as [->|Hne].
          -- right. split; [lia|]. exists es, [], [].
             repeat split; try done. cbn [next]. by apply connect_received.
          -- left. split; [lia|]. apply received_fresh.
             ++ by apply next_consistent.
             ++ rewrite accepted_next. rewrite decide_True by done. lia.
        * left. split; [done|]. apply received_fresh.
          -- by apply next_consistent.
          -- rewrite accepted_next. by rewrite decide_False.
      + right. split; [case_decide; lia|].
        destruct (next_received_old e _ _ Hs Hc) as (us' & Hr' & Hus').
        exists pre, (post ++ [e]), (us ++ us'). repeat split.
        * by rewrite <- app_assoc.
        * by rewrite Hr', Hr.
        * by apply Forall_app. }
  destruct Hinv as [?|(_ & pre & post & us & -> & -> & Hr & Hus)]; [by left|].
  right. exists pre, post, (after pre b), us. repeat split; try done.
  - apply run_Return.
  - rewrite after_dom. apply boot_dom.
Qed.

(** C4.  Two viewers that are connected before the events [es] and are
    not closed during them are sent the same sequence of updates while
    [es] are handled, whenever each of them connected: one update per
    tracked symbol and tick, in the order of [symbols]. *)
Theorem same_updates entropy clock (pre es : list Event) (c1 c2 : nat)
    (s0 : Server) :
  run pre (boot entropy clock) = Return s0 →
  connected c1 s0 → connected c2 s0 →
  Forall (fun e => ¬ closes c1 e ∧ ¬ closes c2 e) es →
  ∃ s updates,
    run es s0 = Return s ∧
    received c1 s = received c1 s0 ++ updates ∧
    received c2 s = received c2 s0 ++ updates ∧
    Forall isUpdate updates ∧
    omap updateSymbolOf updates = mjoin (replicate (ticks es) symbols).
Proof.
  rewrite run_Return. intros [= <-] H1 H2 Hes.
  set (s0 := after pre (boot entropy clock)) in *.
  assert (consistent s0) as Hs0 by apply after_consistent, boot_consistent.
  exists (after es s0), (broadcasts es s0). repeat split.
  - apply run_Return.
  - apply after_received_connected; try done.
    eapply Forall_impl; [exact Hes|]. by intros e [? _].
  - apply after_received_connected; try done.
    eapply Forall_impl; [exact Hes|]. by intros e [_ ?].
  - apply broadcasts_isUpdate.
  - apply broadcasts_symbols. unfold s0. rewrite after_dom. apply boot_dom.
Qed.

(** C5, as amended.  A broadcast hands the message to the registered
    sockets that are open, in the order of the registry, and skips the
    others; it does not throw and leaves the registry and the quote table
    as they are, so that [updateMarketData] runs to its end whatever the
    state of the sockets.  A socket leaves the registry when its
    ['close'] event fires. *)
Theorem broadcast_skips_closed (data : Message) (s : Server) :
  (∃ s', broadcastToClients data s = Return s'
         ∧ clients s' = clients s
         ∧ marketData s' = marketData s
         ∧ wire s' = wire s ++ map (fun ws => (sock ws, data))
                                   (filter (fun ws => readyState ws = OPEN)
                                           (clients s)))
  ∧ (∃ s', updateMarketData s = Return s' ∧ clients s' = clients s)
  ∧ (∀ c, ∃ s', step (SocketClose c) s = Return s'
                ∧ ∀ ws, ws ∈ clients s' → sock ws ≠ c).
Proof.
  split; [|split].
  - exists (fanOut data s). split; [apply broadcastToClients_Return|done].
  - exists (tick s). split; [apply updateMarketData_Return|].
    apply (frame_clients _ _ (tick_frame s)).
  - intros c. exists (socketClose c s). split; [done|].
    by intros ws [Hws _]%list_elem_of_filter.
Qed.

(** C7.  The key set of the quote table is the four symbols loaded by
    [initializeDemoData]; every callback (tick, connection, closing and
    close of a socket, socket error, and each route that reads the table)
    returns and leaves the key set as it found it; so the key set is the
    same after any run. *)
Theorem key_set_is_static entropy clock :
  dom (marketData (boot entropy clock))
  = ({["BANKNIFTY"; "NIFTY"; "SENSEX"; "FINNIFTY"]} : gset string)
  ∧ (∀ (e : Event) (s : Server),
        ∃ s', step e s = Return s' ∧ dom (marketData s') = dom (marketData s))
  ∧ (∀ es : list Event,
        ∃ s, run es (boot entropy clock) = Return s
             ∧ dom (marketData s)
               = ({["BANKNIFTY"; "NIFTY"; "SENSEX"; "FINNIFTY"]} : gset string)).
Proof.
  split; [reflexivity|]. split.
  - intros e s. exists (next e s). split; [apply step_Return|apply next_dom].
  - intros es. exists (after es (boot entropy clock)).
    split; [apply run_Return|]. by rewrite after_dom.
Qed.


End Claims.

(** C4 at work: sockets 0 and 1, two more ticks. *)
Lemma same_updates_witness :
  ∃ s updates,
    run [Tick; Connection; Http (GET_market_index "nifty"); Tick]
        (after [Connection; Tick; Connection] (demo (num:=float) 0.75)) = Return s ∧
    received 0 s
    = received 0 (after [Connection; Tick; Connection] (demo (num:=float) 0.75)) ++ updates ∧
    received 1 s
    = received 1 (after [Connection; Tick; Connection] (demo (num:=float) 0.75)) ++ updates ∧
    Forall isUpdate updates ∧
    omap updateSymbolOf updates
    = mjoin (replicate
               (ticks [Tick; Connection; Http (GET_market_index "nifty"); Tick])
               symbols).
Proof.
  apply (same_updates (fun _ => lit 0.75) (fun n => Z.of_nat n)
                      [Connection; Tick; Connection]).
  - vm_compute. reflexivity.
  - vm_compute. apply list_elem_of_here.
  - vm_compute. apply list_elem_of_further, list_elem_of_here.
  - repeat constructor; intros [?|?]; discriminate.
Defined.

(** C5 as stated fails: socket 0 is closing, a broadcast returns and
    the socket is still registered. *)
Lemma broadcast_keeps_closed_viewer :
  ¬ dropsFailedViewers
      (initialData ∅)
      (after [Connection; Connection; SocketClosing 0] (demo (num:=float) 0.75)).
Proof.
  intros Hdrop.
  destruct (Hdrop {| sock := 0; readyState := CLOSING |}) as (s' & Hs' & Hout).
  - vm_compute. apply list_elem_of_here.
  - discriminate.
  - rewrite broadcastToClients_Return in Hs'. injection Hs' as <-.
    apply Hout. vm_compute. apply list_elem_of_here.
Qed.



Section Rounding.
Local Open Scope Q_scope.

Lemma nearest_bounds (q : Q) :
  q - (1 # 2) <= inject_Z (nearest q) <= q + (1 # 2).
Proof.
  unfold nearest. destruct (Qle_bool 0 q) eqn:Hq.
  - pose proof (Qfloor_le (q + (1 # 2))) as H1.
    pose proof (Qlt_floor (q + (1 # 2))) as H2.
    rewrite inject_Z_plus in H2. change (inject_Z 1) with 1 in H2.
    set (n := inject_Z (Qfloor (q + (1 # 2)))) in *. lra.
  - pose proof (Qfloor_le (- q + (1 # 2))) as H1.
    pose proof (Qlt_floor (- q + (1 # 2))) as H2.
    rewrite inject_Z_plus in H2. change (inject_Z 1) with 1 in H2.
    rewrite inject_Z_opp.
    set (n := inject_Z (Qfloor (- q + (1 # 2)))) in *. lra.
Qed.

Lemma nearest_close (q : Q) : Qabs (inject_Z (nearest q) - q) <= 1 # 2.
Proof. pose proof (nearest_bounds q). apply Qabs_case; lra. Qed.

Lemma nearest_optimal (q : Q) (m : Z) :
  Qabs (inject_Z (nearest q) - q) <= Qabs (inject_Z m - q).
Proof.
  pose proof (nearest_bounds q) as Hn.
  destruct (Z.lt_trichotomy m (nearest q)) as [Hlt|[->|Hgt]].
  - assert (inject_Z m <= inject_Z (nearest q) - 1) as Hm.
    { change (inject_Z (nearest q) - 1)
        with (inject_Z (nearest q) + inject_Z (-1)).
      rewrite <- inject_Z_plus, <- Zle_Qle. lia. }
    do 2 apply Qabs_case; lra.
  - apply Qle_refl.
  - assert (inject_Z (nearest q) + 1 <= inject_Z m) as Hm.
    { change 1 with (inject_Z 1).
      rewrite <- inject_Z_plus, <- Zle_Qle. lia. }
    do 2 apply Qabs_case; lra.
Qed.

Lemma hundredths (n : Z) : n # 100 == inject_Z n * (1 # 100).
Proof. unfold Qeq. simpl. lia. Qed.

Lemma toFixed2_close (x : Q) : Qabs (Exact.toFixed2 x - x) <= 1 # 200.
Proof.
  unfold Exact.toFixed2, cents. rewrite (hundredths (nearest _)).
  pose proof (nearest_bounds (x * inject_Z 100)) as Hn.
  set (n := inject_Z (nearest (x * inject_Z 100))) in *.
  change (inject_Z 100) with 100 in Hn.
  apply Qabs_case; lra.
Qed.

Lemma toFixed2_optimal (x : Q) (m : Z) :
  Qabs (Exact.toFixed2 x - x) <= Qabs ((m # 100) - x).
Proof.
  unfold Exact.toFixed2, cents.
  rewrite (hundredths m), (hundredths (nearest _)).
  pose proof (nearest_optimal (x * inject_Z 100) m) as Hn.
  set (n := inject_Z (nearest (x * inject_Z 100))) in *.
  change (inject_Z 100) with 100 in Hn.
  revert Hn. do 4 apply Qabs_case; lra.
Qed.

End Rounding.

Section Tick.
Context {num : Type} `{Number num}.
Abbreviation Server := (Server num).
Abbreviation MarketIndex := (MarketIndex num).

Lemma updateOne_lookup sym (s : Server) (q : MarketIndex) :
  marketData s !! sym = Some q →
  marketData (updateOne sym s) !! sym
  = Some (updatedData q (entropy s (drawn s)) (entropy s (S (drawn s)))
                      (clock s (read s))).
Proof.
  intros Hq. unfold updateOne. rewrite Hq. cbn. apply lookup_insert_eq.
Qed.

Lemma updateOne_lookup_ne sym sym' (s : Server) :
  sym ≠ sym' → marketData (updateOne sym s) !! sym' = marketData s !! sym'.
Proof.
  intros Hne. unfold updateOne.
  destruct (marketData s !! sym); [|done]. cbn. by apply lookup_insert_ne.
Qed.

Lemma updateOne_counters sym (s : Server) :
  is_Some (marketData s !! sym) →
  drawn (updateOne sym s) = S (S (drawn s))
  ∧ read (updateOne sym s) = S (read s).
Proof. intros [q Hq]. unfold updateOne. by rewrite Hq. Qed.

(** The entry of the [k]-th symbol after a tick, when the table holds
    the four symbols: the round of that symbol takes the draws [2k] and
    [2k+1] of the tick and its [k]-th date. *)
Lemma tick_lookup (s : Server) (k : nat) sym (q : MarketIndex) :
  dom (marketData s) = tracked →
  symbols !! k = Some sym →
  marketData s !! sym = Some q →
  marketData (tick s) !! sym
  = Some (updatedData q (entropy s (drawn s + 2 * k)%nat)
                      (entropy s (drawn s + 2 * k + 1)%nat)
                      (clock s (read s + k)%nat)).
Proof.
  intros Hdom Hk Hq.
  assert (∀ x, x ∈ symbols → is_Some (marketData s !! x)) as Hall.
  { intros x Hx. apply elem_of_dom. rewrite Hdom. unfold tracked.
    by apply elem_of_list_to_set. }
  unfold tick. unfold symbols in *. cbn [foldl].
  set (s1 := updateOne "BANKNIFTY" s).
  set (s2 := updateOne "NIFTY" s1).
  set (s3 := updateOne "SENSEX" s2).
  destruct (updateOne_counters "BANKNIFTY" s) as [Hd1 Hr1];
    [apply Hall, list_elem_of_here|].
  destruct (updateOne_counters "NIFTY" s1) as [Hd2 Hr2].
  { unfold s1. rewrite updateOne_lookup_ne by done.
    apply Hall, list_elem_of_further, list_elem_of_here. }
  destruct (updateOne_counters "SENSEX" s2) as [Hd3 Hr3].
  { unfold s2, s1. rewrite !updateOne_lookup_ne by done.
    apply Hall, list_elem_of_further, list_elem_of_further, list_elem_of_here. }
  pose proof (frame_entropy _ _ (updateOne_frame "BANKNIFTY" s)) as He1.
  pose proof (frame_entropy _ _ (updateOne_frame "NIFTY" s1)) as He2.
  pose proof (frame_entropy _ _ (updateOne_frame "SENSEX" s2)) as He3.
  pose proof (frame_clock _ _ (updateOne_frame "BANKNIFTY" s)) as Hc1.
  pose proof (frame_clock _ _ (updateOne_frame "NIFTY" s1)) as Hc2.
  pose proof (frame_clock _ _ (updateOne_frame "SENSEX" s2)) as Hc3.
  clear Hall. subst s1 s2 s3.
  destruct k as [|[|[|[|k]]]]; simplify_eq/=.
  - rewrite !updateOne_lookup_ne by done.
    rewrite (updateOne_lookup _ _ _ Hq). do 2 f_equal; f_equal; lia.
  - rewrite !updateOne_lookup_ne by done.
    erewrite updateOne_lookup; [|by rewrite updateOne_lookup_ne].
    rewrite He1, Hc1, Hd1, Hr1. do 2 f_equal; f_equal; lia.
  - rewrite !updateOne_lookup_ne by done.
    erewrite updateOne_lookup;
      [|by rewrite !updateOne_lookup_ne].
    rewrite He2, Hc2, Hd2, Hr2, He1, Hc1, Hd1, Hr1. do 2 f_equal; f_equal; lia.
  - erewrite updateOne_lookup;
      [|by rewrite !updateOne_lookup_ne].
    rewrite He3, Hc3, Hd3, Hr3, He2, Hc2, Hd2, Hr2, He1, Hc1, Hd1, Hr1.
    do 2 f_equal; f_equal; lia.
Qed.

End Tick.

Section ExactArithmetic.
Local Open Scope Q_scope.

Lemma tick_entry {num} `{Number num} (s : Server num) (k : nat) sym
    (q : MarketIndex num) :
  dom (marketData s) = tracked →
  symbols !! k = Some sym →
  marketData s !! sym = Some q →
  ∃ s', updateMarketData s = Return s'
        ∧ marketData s' !! sym
          = Some (updatedData q (entropy s (drawn s + 2 * k)%nat)
                              (entropy s (drawn s + 2 * k + 1)%nat)
                              (clock s (read s + k)%nat)).
Proof.
  intros Hdom Hk Hq. exists (tick s).
  split; [apply updateMarketData_Return|by apply tick_lookup].
Qed.

Lemma fluctuation_range (r : Q) :
  0 <= r < 1 → - (1 # 100) <= fluctuationOf r < 1 # 100.
Proof. unfold fluctuationOf. exact_arith. lra. Qed.

Lemma newPrice_band (q : MarketIndex Q) (r : Q) :
  0 <= r < 1 → 0 < price q →
  price q * (99 # 100) <= newPriceOf q r <= price q * (101 # 100).
Proof.
  intros Hr Hp. pose proof (fluctuation_range r Hr) as Hf.
  unfold newPriceOf. exact_arith. set (f := fluctuationOf r) in *.
  set (p := price q) in *. clearbody f p. nra.
Qed.





End ExactArithmetic.

(** ** Stored prices stay positive *)

Section Positive.
Local Open Scope Q_scope.

Lemma cents_positive (x : Q) : 99 # 10000 <= x → (1 ≤ cents x)%Z.
Proof.
  intros Hx. unfold cents, nearest.
  destruct (Qle_bool 0 (x * inject_Z 100)) eqn:Hsign.
  - transitivity (Qfloor 1); [done|]. apply Qfloor_resp_le.
    change (inject_Z 100) with 100. lra.
  - assert (0 <= x * inject_Z 100) as Hpos
      by (change (inject_Z 100) with 100; lra).
    apply Qle_bool_iff in Hpos. congruence.
Qed.

Lemma updatedData_priced (q : MarketIndex Q) (r1 r2 : Q) now :
  0 <= r1 < 1 → 1 # 100 <= price q →
  1 # 100 <= price (updatedData q r1 r2 now).
Proof.
  intros Hr Hq. cbn [price updatedData]. exact_arith.
  pose proof (newPrice_band q r1 Hr) as Hband.
  assert (0 < price q) as Hpos by lra. specialize (Hband Hpos).
  unfold Exact.toFixed2.
  pose proof (cents_positive (newPriceOf q r1)) as Hc.
  assert (99 # 10000 <= newPriceOf q r1) as Hnew by lra.
  specialize (Hc Hnew). rewrite (hundredths (cents _)).
  rewrite Zle_Qle in Hc. change (inject_Z 1) with 1 in Hc.
  set (n := inject_Z (cents (newPriceOf q r1))) in *. lra.
Qed.

Lemma updateOne_priced sym (s : Server Q) :
  (∀ i, 0 <= entropy s i < 1) → priced s → priced (updateOne sym s).
Proof.
  intros Hr Hs sym' q'. destruct (decide (sym = sym')) as [<-|Hne].
  - destruct (marketData s !! sym) as [q|] eqn:Hq.
    + rewrite (updateOne_lookup _ _ _ Hq). intros [= <-].
      apply updatedData_priced; [apply Hr|by apply (Hs sym)].
    + unfold updateOne. rewrite Hq. apply Hs.
  - rewrite updateOne_lookup_ne by done. apply Hs.
Qed.

Lemma tick_priced (s : Server Q) :
  (∀ i, 0 <= entropy s i < 1) → priced s → priced (tick s).
Proof.
  unfold tick. generalize symbols. intros syms. revert s.
  induction syms as [|sym syms IH]; intros s Hr Hs; [done|].
  cbn [foldl]. apply IH.
  - intros i. rewrite (frame_entropy _ _ (updateOne_frame sym s)). apply Hr.
  - by apply updateOne_priced.
Qed.

Lemma next_entropy e (s : Server Q) : entropy (next e s) = entropy s.
Proof.
  destruct e; cbn [next]; try done.
  - apply (frame_entropy _ _ (tick_frame s)).
  - by destruct (handle_frame req s) as ([] & _ & _).
Qed.

Lemma next_priced e (s : Server Q) :
  (∀ i, 0 <= entropy s i < 1) → priced s → priced (next e s).
Proof.
  intros Hr Hs. destruct e; cbn [next]; try done.
  - by apply tick_priced.
  - unfold priced. by destruct (handle_frame req s) as (_ & _ & ->).
Qed.

Lemma boot_priced entropy clock : priced (boot entropy clock).
Proof.
  intros sym q.
  change (marketData (boot entropy clock))
    with (foldl (fun m (index : Z * string * string * Q * Q * Q * Q) =>
                   let '(i, sy, nm, p, c, cp, v) := index in
                   <[sy := {| id_ := i; symbol := sy; name := nm; price := p;
                              change := c; changePercent := cp; volume := v;
                              timestamp := clock (Z.to_nat (i + 6)) |}]> m)
                (∅ : gmap string (MarketIndex Q)) marketIndices).
  cbn [foldl marketIndices].
  intros Hq.
  repeat (apply lookup_insert_Some in Hq as [[_ <-]|[_ Hq]];
          [cbn [price]; unfold Qle; simpl; lia|]).
  by rewrite lookup_empty in Hq.
Qed.

Lemma after_priced (es : list Event) (s : Server Q) :
  (∀ i, 0 <= entropy s i < 1) → priced s → priced (after es s).
Proof.
  revert s. induction es as [|e es IH]; intros s Hr Hs; [done|].
  rewrite after_cons. apply IH.
  - intros i. rewrite next_entropy. apply Hr.
  - by apply next_priced.
Qed.

(** In exact arithmetic, every price the process ever stores is at least
    one cent: the stored prices are positive. *)
Lemma reachable_priced entropy clock (es : list Event) :
  (∀ i, 0 <= entropy i < 1) → priced (after es (boot entropy clock)).
Proof. intros Hr. apply after_priced; [exact Hr|apply boot_priced]. Qed.

End Positive.

Lemma connect_last {num} `{Number num} (s : Server num) :
  ∃ s', step Connection s = Return s'
        ∧ last (wire s') = Some (accepted s, initialData (marketData s)).
Proof.
  exists (connect s). split; [apply (step_Return Connection)|].
  unfold connect. cbn. apply last_snoc.
Qed.

(** C9.  In binary64: when the stored price of a tracked symbol is
    100.00 and the fluctuation of its round is 0.005, the tick stores the
    price 100.50, the change 0.50 and the percent change 0.50; the
    snapshot of a connection made before the tick has the price 100.00
    and that of one made after it 100.50. *)
Theorem tick_example (s : Server float) (k : nat) sym (q : MarketIndex float) :
  dom (marketData s) = tracked →
  symbols !! k = Some sym →
  marketData s !! sym = Some q →
  price q = lit 100 →
  fluctuationOf (entropy s (drawn s + 2 * k)%nat) = lit 0.005 →
  ∃ s' q',
    updateMarketData s = Return s' ∧ marketData s' !! sym = Some q'
    ∧ price q' = lit 100.50 ∧ change q' = lit 0.50
    ∧ changePercent q' = lit 0.50
    ∧ (∃ sb snap, step Connection s = Return sb
                  ∧ last (wire sb) = Some (accepted s, initialData snap)
                  ∧ price <$> snap !! sym = Some (lit 100))
    ∧ (∃ sa snap, step Connection s' = Return sa
                  ∧ last (wire sa) = Some (accepted s', initialData snap)
                  ∧ price <$> snap !! sym = Some (lit 100.50)).
Proof.
  intros Hdom Hk Hq Hp Hf.
  destruct (tick_entry s k sym q Hdom Hk Hq) as (s' & Hs' & Hq').
  assert (toFixed2 (newPriceOf q (entropy s (drawn s + 2 * k)%nat))
          = lit 100.50) as Hnew.
  { unfold newPriceOf. rewrite Hf, Hp. vm_compute. reflexivity. }
  eexists s', _. split; [done|]. split; [exact Hq'|].
  cbn [price change changePercent updatedData].
  split; [exact Hnew|].
  split; [unfold changeOf, newPriceOf; rewrite Hf, Hp; vm_compute; reflexivity|].
  split; [unfold changePercentOf, changeOf, newPriceOf; rewrite Hf, Hp;
          vm_compute; reflexivity|].
  split.
  - destruct (connect_last s) as (sb & Hsb & Hlast).
    exists sb, (marketData s). split; [done|]. split; [done|].
    by rewrite Hq, <- Hp.
  - destruct (connect_last s') as (sa & Hsa & Hlast).
    exists sa, (marketData s'). split; [done|]. split; [done|].
    rewrite Hq'. exact (f_equal Some Hnew).
Qed.

(** C9 at work: NIFTY at 100.00 and the draw 0.75. *)
Lemma tick_example_witness :
  ∃ s' q',
    updateMarketData (demo100 (num:=float) 0.75) = Return s'
    ∧ marketData s' !! "NIFTY" = Some q'
    ∧ price q' = lit 100.50 ∧ change q' = lit 0.50
    ∧ changePercent q' = lit 0.50
    ∧ (∃ sb snap, step Connection (demo100 0.75) = Return sb
                  ∧ last (wire sb)
                    = Some (accepted (demo100 (num:=float) 0.75), initialData snap)
                  ∧ price <$> snap !! "NIFTY" = Some (lit 100))
    ∧ (∃ sa snap, step Connection s' = Return sa
                  ∧ last (wire sa) = Some (accepted s', initialData snap)
                  ∧ price <$> snap !! "NIFTY" = Some (lit 100.50)).
Proof.
  apply (tick_example (demo100 0.75) 1 "NIFTY" nifty100).
  - reflexivity.
  - reflexivity.
  - reflexivity.
  - reflexivity.
  - vm_compute. reflexivity.
Defined.

(** The same tick in exact arithmetic. *)
Lemma exact_tick_at_100 :
  stored "NIFTY" (tick (demo100 (num:=Q) 0.75))
  = Some (100.50, 0.50, 0.50)%Q.
Proof. vm_compute. reflexivity. Qed.







(** The two arithmetics store the same two-decimal values on these
    draws, for the four symbols. *)
Lemma instances_agree :
  forallb (fun r => forallb (agree r) symbols)
          [0.1; 0.25; 0.3333; 0.5; 0.5024; 0.75; 0.9; 0.999999]%Q = true.
Proof. vm_compute. reflexivity. Qed.

(** They part on a tie: with the draw 0 the change of BANKNIFTY is
    -478.255 in exact arithmetic, stored as -478.26, and a little above
    it in binary64, stored as -478.25: one cent apart, and within a cent
    of the difference of the stored prices. *)
Lemma instances_part_on_a_tie :
  stored "BANKNIFTY" (tick (demo (num:=float) 0))
  = Some (lit 47347.25, lit (-478.25), lit (-1.00))
  ∧ stored "BANKNIFTY" (tick (demo (num:=Q) 0))
    = Some (47347.25, -478.26, -1.00)%Q.
Proof. split; vm_compute; reflexivity. Qed.

(** Binary64 at the ends of the range of [Math.random]: the draws 0 and
    1 - 2^-53 give the volumes 500000 and 999999. *)
Lemma volume_binary64_extremes :
  volume (updatedData (nifty100 (num:=float)) (lit 0.5) (lit 0) 0)
  = lit 500000
  ∧ volume (updatedData (nifty100 (num:=float)) (lit 0.5)
                        (lit (9007199254740991 # 9007199254740992)) 0)
    = lit 999999.
Proof. split; vm_compute; reflexivity. Qed.

(** In binary64 the stored value is the one the two-decimal numeral of
    [cents] denotes: the binary64 value nearest to that multiple of 0.01. *)
Lemma binary64_toFixed2_cents (x : float) s m e :
  Prim2SF x = S754_finite s m e →
  Qle_bool (inject_Z (10 ^ 21)) (Qabs (Binary64.toQ x)) = false →
  cents (Binary64.toQ x) ≠ 0 →
  Binary64.toFixed2 x = Binary64.ofQ (cents (Binary64.toQ x) # 100).
Proof.
  intros Hx Hbig Hn. unfold Binary64.toFixed2, Binary64.toQ in *.
  rewrite Hx in *. rewrite Hbig.
  destruct (Z.eqb_spec (cents (Binary64.SF2Q (S754_finite s m e))) 0); done.
Qed.

(** * The rest of the market side *)

(** ** Sockets that are not open *)

Section Lifecycle.
Context {num : Type} `{Number num}.
Abbreviation Server := (Server num).
Abbreviation MarketIndex := (MarketIndex num).
Abbreviation Message := (Message num).

Lemma inbox_fanOut_not_connected c (data : Message) (cl : list WebSocket) :
  {| sock := c; readyState := OPEN |} ∉ cl →
  inbox c (map (fun ws => (sock ws, data))
               (filter (fun ws => readyState ws = OPEN) cl)) = [].
Proof.
  intros Hc. apply inbox_fanOut_absent.
  intros (ws & Hsock & Hws)%list_elem_of_fmap.
  apply list_elem_of_filter in Hws as [Hopen Hws].
  apply Hc. destruct ws as [c' st]. simpl in *. by subst.
Qed.

Lemma updateOne_received_silent sym c (s : Server) :
  ¬ connected c s → received c (updateOne sym s) = received c s.
Proof.
  intros Hc. rewrite !received_inbox, updateOne_wire, inbox_app.
  unfold announce. destruct (marketData s !! sym); simpl.
  - rewrite app_nil_r, inbox_fanOut_not_connected by done. by rewrite app_nil_r.
  - by rewrite app_nil_r.
Qed.

Lemma tick_received_silent c (s : Server) :
  ¬ connected c s → received c (tick s) = received c s.
Proof.
  unfold tick. generalize symbols. intros syms. revert s.
  induction syms as [|sym syms IH]; intros s Hc; [done|].
  cbn [foldl]. rewrite IH.
  - by apply updateOne_received_silent.
  - unfold connected. by rewrite (frame_clients _ _ (updateOne_frame sym s)).
Qed.

Lemma next_not_connected e c (s : Server) :
  (c < accepted s)%nat → ¬ connected c s → ¬ connected c (next e s).
Proof.
  unfold connected. intros Hlt Hc.
  destruct e as [| |c0|c0|c0|req]; cbn [next].
  - by rewrite (frame_clients _ _ (tick_frame s)).
  - simpl. intros [?| Heq%list_elem_of_singleton]%elem_of_app; [done|].
    injection Heq as ->. lia.
  - simpl. intros (ws & Heq & Hws)%list_elem_of_fmap.
    destruct (decide (sock ws = c0)); [done|]. by subst.
  - simpl. by intros [_ ?]%list_elem_of_filter.
  - done.
  - by destruct (handle_frame req s) as ([-> _ _ _ _ _] & _ & _).
Qed.

Lemma next_received_silent e c (s : Server) :
  (c < accepted s)%nat → ¬ connected c s →
  received c (next e s) = received c s.
Proof.
  intros Hlt Hc. destruct e as [| |c0|c0|c0|req]; cbn [next]; try done.
  - by apply tick_received_silent.
  - rewrite !received_inbox. simpl. rewrite inbox_app.
    unfold inbox at 2. simpl. rewrite filter_cons. simpl.
    rewrite decide_False by lia. by rewrite app_nil_r.
  - rewrite !received_inbox. by destruct (handle_frame req s) as (_ & -> & _).
Qed.

Lemma accepted_next_le e (s : Server) : (accepted s ≤ accepted (next e s))%nat.
Proof. rewrite accepted_next. case_decide; lia. Qed.

Lemma after_received_silent es c (s : Server) :
  (c < accepted s)%nat → ¬ connected c s →
  received c (after es s) = received c s ∧ ¬ connected c (after es s).
Proof.
  revert s. induction es as [|e es IH]; intros s Hlt Hc; [done|].
  rewrite after_cons.
  destruct (IH (next e s)) as [Hr Hn].
  - pose proof (accepted_next_le e s). lia.
  - by apply next_not_connected.
  - split; [|done]. rewrite Hr. by apply next_received_silent.
Qed.

(** X1.  A socket that was accepted and is not open any more (closing, or
    closed and out of the registry) is sent nothing more, whatever comes
    next (ticks, connections, closes, requests), and is never open
    again: the run returns, the socket has received what it had
    received before, and it is not connected. *)
Theorem closed_socket_stays_silent (es : list Event) (c : nat) (s : Server) :
  (c < accepted s)%nat → ¬ connected c s →
  ∃ s', run es s = Return s' ∧ received c s' = received c s
        ∧ ¬ connected c s'.
Proof.
  intros Hlt Hc. exists (after es s). split; [apply run_Return|].
  by apply after_received_silent.
Qed.

End Lifecycle.

(** ** What a viewer holds *)

Section Snapshots.
Context {num : Type} `{Number num}.
Abbreviation Server := (Server num).
Abbreviation MarketIndex := (MarketIndex num).
Abbreviation Message := (Message num).

Lemma replay_app (ms1 ms2 : list Message) :
  replay (ms1 ++ ms2) = foldl applyMessage (replay ms1) ms2.
Proof. apply foldl_app. Qed.

Lemma updateOne_marketData sym (s : Server) :
  marketData (updateOne sym s)
  = foldl applyMessage (marketData s) (announce sym s).
Proof.
  unfold updateOne, announce. by destruct (marketData s !! sym).
Qed.

Lemma updateOne_inSync sym (s : Server) :
  consistent s → inSync s → inSync (updateOne sym s).
Proof.
  intros Hs Hsync c Hc.
  assert (connected c s) as Hc'.
  { unfold connected in *.
    by rewrite (frame_clients _ _ (updateOne_frame sym s)) in Hc. }
  rewrite updateOne_received_connected, replay_app, Hsync by done.
  by rewrite updateOne_marketData.
Qed.

Lemma tick_inSync (s : Server) : consistent s → inSync s → inSync (tick s).
Proof.
  unfold tick. generalize symbols. intros syms. revert s.
  induction syms as [|sym syms IH]; intros s Hs Hsync; [done|].
  cbn [foldl]. apply IH; [by apply updateOne_consistent|].
  by apply updateOne_inSync.
Qed.

Lemma next_inSync e (s : Server) : consistent s → inSync s → inSync (next e s).
Proof.
  intros Hs Hsync. destruct e as [| |c0|c0|c0|req]; cbn [next].
  - by apply tick_inSync.
  - intros c Hc. unfold connected in Hc. simpl in Hc.
    apply elem_of_app in Hc as [Hc|Hc%list_elem_of_singleton].
    + assert (c < accepted s)%nat as Hlt by apply (clients_accepted s Hs _ Hc).
      change (connect s) with (next Connection s).
      rewrite (next_received_connected Connection) by done.
      rewrite app_nil_r. by apply Hsync.
    + injection Hc as ->. by rewrite connect_received.
  - intros c Hc. change (received c (socketClosing c0 s)) with (received c s).
    apply Hsync. unfold connected in *. simpl in Hc.
    apply list_elem_of_fmap in Hc as (ws & Heq & Hws).
    destruct (decide (sock ws = c0)); [done|]. by subst.
  - intros c Hc. change (received c (socketClose c0 s)) with (received c s).
    apply Hsync. unfold connected in *. simpl in Hc.
    by apply list_elem_of_filter in Hc as [_ ?].
  - done.
  - intros c Hc. destruct (handle_frame req s) as ([Hcl _ _ _ _ _] & Hw & Hm).
    unfold connected in Hc. rewrite Hcl in Hc.
    rewrite received_inbox, Hw, Hm. by apply Hsync.
Qed.

Lemma after_inSync es (s : Server) :
  consistent s → inSync s → inSync (after es s).
Proof.
  revert s. induction es as [|e es IH]; intros s Hs Hsync; [done|].
  rewrite after_cons. apply IH; [by apply next_consistent|by apply next_inSync].
Qed.

(** X2.  A viewer that takes the snapshot as its table and every update
    as the new entry of its symbol holds the table of the server: for
    every socket that is open after a run from the start, replaying what
    it was sent gives [marketData]. *)
Theorem viewer_holds_the_table entropy clock (es : list Event) (c : nat)
    (s : Server) :
  run es (boot entropy clock) = Return s →
  connected c s →
  replay (received c s) = marketData s.
Proof.
  rewrite run_Return. intros [= <-]. apply after_inSync.
  - apply boot_consistent.
  - intros c' Hc'. unfold connected in Hc'. rewrite boot_clients in Hc'.
    by apply elem_of_nil in Hc'.
Qed.


End Snapshots.

(** ** What an entry is *)

Section Identity.
Context {num : Type} `{Number num}.
Abbreviation Server := (Server num).
Abbreviation MarketIndex := (MarketIndex num).
Abbreviation Message := (Message num).

Lemma updateOne_identified sym (s : Server) :
  identified s → identified (updateOne sym s).
Proof.
  intros Hs sym' q'. destruct (decide (sym = sym')) as [<-|Hne].
  - destruct (marketData s !! sym) as [q|] eqn:Hq.
    + rewrite (updateOne_lookup _ _ _ Hq). intros [= <-].
      cbn [symbol id_ name updatedData]. by apply Hs.
    + unfold updateOne. rewrite Hq. apply Hs.
  - rewrite updateOne_lookup_ne by done. apply Hs.
Qed.

Lemma tick_identified (s : Server) : identified s → identified (tick s).
Proof.
  unfold tick. generalize symbols. intros syms. revert s.
  induction syms as [|sym syms IH]; intros s Hs; [done|].
  cbn [foldl]. by apply IH, updateOne_identified.
Qed.

Lemma next_identified e (s : Server) : identified s → identified (next e s).
Proof.
  intros Hs. destruct e as [| |c|c|c|req]; cbn [next]; try done.
  - by apply tick_identified.
  - unfold identified. by destruct (handle_frame req s) as (_ & _ & ->).
Qed.

Lemma boot_identified entropy clock : identified (boot (num:=num) entropy clock).
Proof.
  intros sym q.
  change (marketData (boot entropy clock))
    with (foldl (fun m (index : Z * string * string * Q * Q * Q * Q) =>
                   let '(i, sy, nm, p, c, cp, v) := index in
                   <[sy := {| id_ := i; symbol := sy; name := nm;
                              price := lit p; change := lit c;
                              changePercent := lit cp; volume := lit v;
                              timestamp := clock (Z.to_nat (i + 6)) |}]> m)
                (∅ : gmap string MarketIndex) marketIndices).
  cbn [foldl marketIndices]. intros Hq.
  repeat (apply lookup_insert_Some in Hq as [[<- <-]|[_ Hq]];
          [split; [done|]; cbn [id_ name]; unfold identities; cbn;
           repeat (first [apply list_elem_of_here|apply list_elem_of_further])|]).
  by rewrite lookup_empty in Hq.
Qed.

(** X4.  Ticks change the figures of an entry, never what it is: in every
    state reached from the start, the entry stored under a symbol
    carries that symbol, and the id and the name it was loaded with. *)
Theorem identity_is_kept entropy clock (es : list Event) :
  ∃ s, run es (boot entropy clock) = Return s
       ∧ ∀ sym q, marketData s !! sym = Some q →
                  symbol q = sym ∧ (id_ q, sym, name q) ∈ identities.
Proof.
  exists (after es (boot entropy clock)). split; [apply run_Return|].
  generalize (boot_identified entropy clock). generalize (boot entropy clock).
  induction es as [|e es IH]; intros s Hs; [done|].
  rewrite after_cons. by apply IH, next_identified.
Qed.

End Identity.

Lemma upper_idempotent (c : ascii) : upper (upper c) = upper c.
Proof.
  destruct c as [[] [] [] [] [] [] [] []]; reflexivity.
Qed.

Lemma toUpperCase_idempotent (s : string) :
  toUpperCase (toUpperCase s) = toUpperCase s.
Proof.
  unfold toUpperCase. induction s as [|c s IH]; [done|].
  cbn [mapString]. by rewrite upper_idempotent, IH.
Qed.

Lemma upper_lower (c : ascii) : upper (lower c) = upper c.
Proof.
  destruct c as [[] [] [] [] [] [] [] []]; reflexivity.
Qed.

Lemma toUpperCase_toLowerCase (s : string) :
  toUpperCase (toLowerCase s) = toUpperCase s.
Proof.
  unfold toUpperCase, toLowerCase. induction s as [|c s IH]; [done|].
  cbn [mapString]. by rewrite upper_lower, IH.
Qed.


(** ** The AI agent *)

Section Draws.
Local Open Scope Q_scope.

Lemma exact_toIndex (z : Z) :
  (0 ≤ z)%Z → Exact.toIndex (inject_Z z) = Some (Z.to_nat z).
Proof.
  intros Hz. unfold Exact.toIndex. rewrite Qfloor_Z.
  assert (Qle_bool 0 (inject_Z z) = true) as ->.
  { apply Qle_bool_iff. by rewrite <- (Zle_Qle 0). }
  assert (Qeq_bool (inject_Z z) (inject_Z z) = true) as ->; [|done].
  apply Qeq_bool_iff. reflexivity.
Qed.

(** [Math.floor(r * n)] for a draw [r]: an integer from 0 to [n - 1]. *)
Lemma floor_draw (r : Q) (n : Z) :
  0 <= r < 1 → (0 < n)%Z → (0 ≤ Qfloor (r * inject_Z n) < n)%Z.
Proof.
  intros Hr Hn.
  assert (0 < inject_Z n) as Hn' by by rewrite <- (Zlt_Qlt 0).
  split.
  - transitivity (Qfloor 0); [done|]. apply Qfloor_resp_le.
    set (x := inject_Z n) in *. clearbody x. nra.
  - rewrite Zlt_Qlt. eapply Qle_lt_trans; [apply Qfloor_le|].
    set (x := inject_Z n) in *. clearbody x. nra.
Qed.

Lemma pick_of_three (labels : list string) (r : Q) a b c :
  labels = [a; b; c] → 0 <= r < 1 →
  ∃ l, (i ← toIndex (floor (mul r (lit (inject_Z (Z.of_nat (length labels))))));
        labels !! i) = Some l ∧ l ∈ labels.
Proof.
  intros -> Hr. exact_arith. cbn [length toIndex exact].
  change (Z.of_nat 3) with 3%Z.
  destruct (floor_draw r 3 Hr eq_refl) as [H0 H3].
  rewrite exact_toIndex by done. cbn [mbind option_bind].
  set (z := Qfloor (r * inject_Z 3)) in *. clearbody z.
  assert (z = 0 ∨ z = 1 ∨ z = 2)%Z as [->|[->| ->]] by lia; cbn.
  - eexists. split; [done|]. apply list_elem_of_here.
  - eexists. split; [done|]. apply list_elem_of_further, list_elem_of_here.
  - eexists. split; [done|].
    apply list_elem_of_further, list_elem_of_further, list_elem_of_here.
Qed.

End Draws.

Section Agent.
Local Open Scope Q_scope.

(** What [analyzeMarketWithAI] returns for a symbol of the table, in
    exact arithmetic with draws in [0, 1). *)
Lemma analyzeMarketWithAI_known (s : Server Q) sym (q : MarketIndex Q) :
  (∀ i, 0 <= entropy s i < 1) →
  marketData s !! sym = Some q →
  ∃ a s' sg lv,
    analyzeMarketWithAI sym s = (Return a, s')
    ∧ sg ∈ ["BUY"; "SELL"; "HOLD"]%string ∧ signal a = Some sg
    ∧ lv ∈ ["LOW"; "MEDIUM"; "HIGH"]%string ∧ riskLevel a = lv
    ∧ a_symbol a = sym
    ∧ confidence a
      = inject_Z (Qfloor (entropy s (S (drawn s)) * 30)) + 70
    ∧ targetPrice a
      = price q * (if decide (Some sg = Some "BUY"%string) then 1.02 else 0.98)
    ∧ stopLoss a
      = price q * (if decide (Some sg = Some "BUY"%string) then 0.98 else 1.02)
    ∧ a_timestamp a = clock s (read s)
    ∧ marketData s' = marketData s ∧ aiAnalysis s' = aiAnalysis s
    ∧ clients s' = clients s ∧ wire s' = wire s
    ∧ entropy s' = entropy s ∧ clock s' = clock s
    ∧ drawn s' = (drawn s + 3)%nat ∧ read s' = S (read s).
Proof.
  intros Hr Hq. unfold analyzeMarketWithAI. rewrite Hq.
  unfold Math_random, new_Date. cbv beta iota zeta.
  cbn [entropy drawn clock read marketData].
  destruct (pick_of_three ["BUY"; "SELL"; "HOLD"]%string (entropy s (drawn s))
              _ _ _ eq_refl (Hr _)) as (sg & -> & Hsg).
  destruct (pick_of_three ["LOW"; "MEDIUM"; "HIGH"]%string
              (entropy s (S (S (drawn s)))) _ _ _ eq_refl (Hr _))
    as (lv & -> & Hlv).
  eexists _, _, sg, lv. split; [reflexivity|].
  cbn [signal riskLevel a_symbol confidence targetPrice stopLoss a_timestamp
       marketData aiAnalysis clients wire entropy clock drawn read].
  repeat split; try done. lia.
Qed.




End Agent.

(** ** The options chain and the sign of prices *)

Section Options.
Context {num : Type} `{Number num}.

Lemma boot_optionsData entropy clock :
  optionsData (boot (num:=num) entropy clock)
  = {[ "BANKNIFTY" :=
         fst (mapOptions 0 bankNiftyOptions (loaded entropy clock)) ]}.
Proof. reflexivity. Qed.


End Options.



(** X1 at work: socket 0 was closed; a tick, a connection and a tick
    follow. *)
Lemma closed_socket_stays_silent_witness :
  ∃ s' : Server Q,
    run [Tick; Connection; Tick] (after [Connection; SocketClose 0] (demo 0.75))
    = Return s'
    ∧ received 0 s'
      = received 0 (after [Connection; SocketClose 0] (demo (num:=Q) 0.75))
    ∧ ¬ connected 0 s'.
Proof.
  apply (closed_socket_stays_silent [Tick; Connection; Tick] 0%nat
           (after [Connection; SocketClose 0] (demo (num:=Q) 0.75))).
  - vm_compute. lia.
  - vm_compute. intros Hin. inversion Hin.
Defined.

(** X2 at work: socket 0 after its connection and two ticks. *)
Lemma viewer_holds_the_table_witness :
  replay (received 0 (after [Connection; Tick; Tick] (demo (num:=Q) 0.75)))
  = marketData (after [Connection; Tick; Tick] (demo (num:=Q) 0.75)).
Proof.
  apply (viewer_holds_the_table (fun _ => lit 0.75) (fun n => Z.of_nat n)
           [Connection; Tick; Tick] 0%nat).
  - vm_compute. reflexivity.
  - vm_compute. apply list_elem_of_here.
Defined.





(** * The desk *)

(** ** Maps in insertion order *)

Section Maps.
Context {V : Type}.
Implicit Types (m : list (Z * V)) (k : Z) (v : V).

Lemma mapSet_fresh k v m : k ∉ map fst m → mapSet k v m = m ++ [(k, v)].
Proof.
  induction m as [|[k' v'] m IH]; [done|]. simpl. intros Hk.
  apply not_elem_of_cons in Hk as [Hne Hk].
  destruct (Z.eqb_spec k k'); [done|]. by rewrite IH.
Qed.

Lemma mapGet_mapSet k v m : mapGet k (mapSet k v m) = Some v.
Proof.
  unfold mapGet. induction m as [|[k' v'] m IH]; simpl.
  - by rewrite Z.eqb_refl.
  - destruct (Z.eqb_spec k k') as [->|Hne]; simpl.
    + by rewrite Z.eqb_refl.
    + destruct (Z.eqb_spec k k'); [done|]. apply IH.
Qed.

Lemma mapSet_keys_present k v m :
  k ∈ map fst m → map fst (mapSet k v m) = map fst m.
Proof.
  induction m as [|[k' w] m IH]; simpl; [by intros ?%elem_of_nil|].
  intros Hk. destruct (Z.eqb_spec k k') as [->|Hne]; [done|]. simpl.
  apply elem_of_cons in Hk as [?|Hk]; [done|]. by rewrite IH.
Qed.

Lemma numbered_keys_le (idOf : V -> Z) m k :
  numbered idOf m → k ∈ map fst m → 1 ≤ k ≤ size m.
Proof.
  intros [Hkeys _] Hk. rewrite Hkeys in Hk.
  apply list_elem_of_fmap in Hk as (i & -> & Hi).
  apply elem_of_seq in Hi. unfold size. lia.
Qed.

Lemma numbered_snoc (idOf : V -> Z) m v :
  numbered idOf m → idOf v = size m + 1 →
  numbered idOf (m ++ [(size m + 1, v)]).
Proof.
  intros [Hkeys Hids] Hv. split.
  - rewrite map_app, length_app, Hkeys. simpl.
    rewrite Nat.add_1_r, seq_S, map_app. simpl. unfold size.
    do 3 f_equal. lia.
  - apply Forall_app. split; [done|]. by repeat constructor.
Qed.

Lemma numbered_fresh (idOf : V -> Z) m v :
  numbered idOf m → mapSet (size m + 1) v m = m ++ [(size m + 1, v)].
Proof.
  intros Hm. apply mapSet_fresh. intros Hk.
  apply (numbered_keys_le idOf) in Hk; [lia|done].
Qed.

Lemma numbered_NoDup (idOf : V -> Z) m : numbered idOf m → NoDup (map fst m).
Proof.
  intros [-> _]. apply NoDup_fmap_2; [|apply NoDup_seq].
  intros x y. lia.
Qed.

(** Replacing the record of a key of the table by one with the same id. *)
Lemma numbered_update (idOf : V -> Z) m v0 v :
  numbered idOf m → v0 ∈ values m → idOf v = idOf v0 →
  numbered idOf (mapSet (idOf v0) v m)
  ∧ length (mapSet (idOf v0) v m) = length m.
Proof.
  intros [Hkeys Hids] Hv0 Hv.
  assert (idOf v0 ∈ map fst m) as Hk.
  { apply list_elem_of_fmap in Hv0 as ([k w] & -> & Hin).
    rewrite Forall_forall in Hids. rewrite (Hids _ Hin).
    apply list_elem_of_fmap. by exists (k, w). }
  assert (length (mapSet (idOf v0) v m) = length m) as Hlen.
  { rewrite <- (length_map fst), mapSet_keys_present, length_map; done. }
  split; [|done]. split.
  - by rewrite mapSet_keys_present, Hlen.
  - clear Hkeys Hv0 Hk Hlen. induction m as [|[k' w] m IH]; simpl.
    + by repeat constructor.
    + apply Forall_cons in Hids as [Hw Hids].
      destruct (Z.eqb_spec (idOf v0) k') as [<-|Hne].
      * by constructor.
      * constructor; [done|]. by apply IH.
Qed.

Lemma values_snoc m k v : values (m ++ [(k, v)]) = values m ++ [v].
Proof. unfold values. by rewrite map_app. Qed.

Lemma find_snoc (f : V -> bool) (l : list V) (x : V) :
  List.find f (l ++ [x])
  = match List.find f l with
    | Some y => Some y
    | None => if f x then Some x else None
    end.
Proof.
  induction l as [|y l IH]; simpl; [done|]. by destruct (f y).
Qed.

Lemma filter_snoc (f : V -> bool) (l : list V) (x : V) :
  filter (fun y => f y = true) (l ++ [x])
  = filter (fun y => f y = true) l ++ (if f x then [x] else []).
Proof.
  rewrite filter_app. f_equal. rewrite filter_cons, filter_nil.
  destruct (f x) eqn:E; by destruct (decide _).
Qed.

(** [set] keeps every entry at its place; only the value of the key that
    is set changes. *)
Lemma mapSet_lookup k v m (i : nat) k0 p :
  m !! i = Some (k0, p) →
  ∃ p', mapSet k v m !! i = Some (k0, p') ∧ (p' = p ∨ (k0 = k ∧ p' = v)).
Proof.
  revert i. induction m as [|[k' w] m IH]; intros i Hi; [done|]. simpl.
  destruct (Z.eqb_spec k k') as [->|Hne].
  - destruct i as [|i]; simpl in *.
    + injection Hi as <- <-. eauto.
    + eauto.
  - destruct i as [|i]; simpl in *.
    + injection Hi as <- <-. eauto.
    + by apply IH.
Qed.

(** Replacing the first record that passes a test by one of the same id
    that passes it too: the test finds the new one. *)
Lemma find_mapSet (idOf : V -> Z) (f : V -> bool) m v0 v :
  numbered idOf m → List.find f (values m) = Some v0 → f v = true →
  List.find f (values (mapSet (idOf v0) v m)) = Some v.
Proof.
  intros Hm. pose proof (numbered_NoDup idOf m Hm) as Hnd.
  destruct Hm as [_ Hids]. revert Hnd Hids.
  induction m as [|[k' w] m IH]; intros Hnd Hids Hf Hv; [done|].
  simpl in *. apply Forall_cons in Hids as [Hw Hids]. simpl in Hw.
  apply NoDup_cons in Hnd as [Hk' Hnd].
  destruct (f w) eqn:Efw.
  - injection Hf as <-. rewrite Hw, Z.eqb_refl. simpl. by rewrite Hv.
  - assert (idOf v0 ∈ map fst m) as Hin.
    { apply find_some in Hf as [Hin _]. apply list_elem_of_In in Hin.
      apply list_elem_of_fmap in Hin as ([k p] & -> & Hin).
      rewrite Forall_forall in Hids. rewrite (Hids _ Hin).
      apply list_elem_of_fmap. by exists (k, p). }
    destruct (Z.eqb_spec (idOf v0) k') as [E|Hne]; [rewrite E in Hin; contradiction|].
    simpl. rewrite Efw. by apply IH.
Qed.

Lemma NoDup_keys_values m k v v' :
  NoDup (map fst m) → (k, v) ∈ m → (k, v') ∈ m → v = v'.
Proof.
  induction m as [|[k0 w] m IH]; [by intros _ ?%elem_of_nil|].
  simpl. intros [Hk0 Hnd]%NoDup_cons Hv Hv'.
  assert (∀ u, (k0, u) ∈ m → False) as Habs.
  { intros u Hu. apply Hk0, list_elem_of_fmap. by exists (k0, u). }
  apply elem_of_cons in Hv as [Hv|Hv];
    apply elem_of_cons in Hv' as [Hv'|Hv']; simplify_eq.
  - done.
  - by destruct (Habs v').
  - by destruct (Habs v).
  - by apply IH.
Qed.

Lemma find_values_elem (f : V -> bool) m v :
  List.find f (values m) = Some v → v ∈ values m.
Proof. intros [Hin _]%find_some. by apply list_elem_of_In. Qed.

End Maps.

(** ** Runs of the whole process *)

Section DeskWorld.
Context {num : Type} `{Number num} `{Relations num}.
Abbreviation Server := (Server num).
Abbreviation Desk := (Desk num).
Abbreviation DeskRequest := (DeskRequest num).
Abbreviation WorldEvent := (WorldEvent num).
Implicit Types (w : Server * Desk) (d : Desk) (s : Server).

Lemma worldStep_Return (e : WorldEvent) w : worldStep e w = Return (worldNext e w).
Proof.
  destruct e as [e|req]; cbn [worldStep worldNext]; [|done].
  by rewrite step_Return.
Qed.

Lemma worldRun_Return (es : list WorldEvent) w :
  worldRun es w = Return (worldAfter es w).
Proof. apply (forEach_Return worldStep worldNext), worldStep_Return. Qed.

Lemma worldAfter_cons (e : WorldEvent) es w :
  worldAfter (e :: es) w = worldAfter es (worldNext e w).
Proof. reflexivity. Qed.

Lemma worldAfter_app (es1 es2 : list WorldEvent) w :
  worldAfter (es1 ++ es2) w = worldAfter es2 (worldAfter es1 w).
Proof. apply foldl_app. Qed.

(** A request of the desk reads the clock and nothing else of the market
    side. *)
Lemma handleDesk_server (req : DeskRequest) w :
  let s' := fst (snd (handleDesk req w)) in
  marketData s' = marketData (fst w)
  ∧ optionsData s' = optionsData (fst w)
  ∧ aiAnalysis s' = aiAnalysis (fst w)
  ∧ clients s' = clients (fst w)
  ∧ accepted s' = accepted (fst w)
  ∧ wire s' = wire (fst w)
  ∧ entropy s' = entropy (fst w)
  ∧ drawn s' = drawn (fst w)
  ∧ clock s' = clock (fst w)
  ∧ (read (fst w) ≤ read s' ≤ read (fst w) + 2)%nat.
Proof.
  destruct w as [s d].
  destruct req as [u|u tv ac pl|u|u sym q avg cur pl ty|u|u sym cond target
                  |u sym ty q x|sym action q ot|u]; cbn -[Nat.add].
  7: { destruct (List.find _ _); [|destruct (strictEq ty _)]; cbn -[Nat.add];
       repeat split; lia. }
  all: repeat case_match; cbn -[Nat.add]; repeat split; lia.
Qed.


(** *** The invariant of the desk *)

Lemma tidy_initializeDesk clock : tidy (initializeDesk clock).
Proof. repeat split; cbn; repeat constructor. Qed.

Lemma tradePositions_numbered u sym ty q x now (ps : list (Z * Position num)) :
  numbered pos_id ps →
  numbered pos_id (tradePositions u sym ty q x now ps).
Proof.
  intros Hps. unfold tradePositions.
  destruct (List.find _ _) as [p0|] eqn:Hfind.
  - eapply numbered_update; [done| |done].
    by apply find_values_elem in Hfind.
  - destruct (strictEq ty _); [|done]. cbn [pos_id].
    rewrite (numbered_fresh pos_id); [|done]. by apply numbered_snoc.
Qed.

Lemma tidy_handleDesk (req : DeskRequest) w :
  tidy (snd w) → tidy (snd (snd (handleDesk req w))).
Proof.
  destruct w as [s d]. intros (Hpf & Hpos & Hal).
  destruct req as [u|u tv ac pl|u|u sym q avg cur pl ty|u|u sym cond target
                  |u sym ty q x|sym action q ot|u]; cbn.
  - by destruct (List.find _ _).
  - split; [|done]. cbn.
    rewrite (numbered_fresh pf_id); [|done]. by apply numbered_snoc.
  - done.
  - split; [done|split; [|done]]. cbn.
    rewrite (numbered_fresh pos_id); [|done]. by apply numbered_snoc.
  - done.
  - split; [done|split; [done|]]. cbn.
    rewrite (numbered_fresh al_id); [|done]. by apply numbered_snoc.
  - destruct (List.find _ _) eqn:Hfind; [|destruct (strictEq ty _) eqn:Hbuy]; cbn;
      (split; [done|split; [|done]]); cbn; by apply tradePositions_numbered.
  - done.
  - by destruct (List.find _ _).
Qed.

Lemma tidy_worldNext (e : WorldEvent) w : tidy (snd w) → tidy (snd (worldNext e w)).
Proof. destruct e as [e|req]; [done|apply tidy_handleDesk]. Qed.

Lemma tidy_worldAfter (es : list WorldEvent) w :
  tidy (snd w) → tidy (snd (worldAfter es w)).
Proof.
  revert w. induction es as [|e es IH]; intros w Hw; [done|].
  rewrite worldAfter_cons. by apply IH, tidy_worldNext.
Qed.

Lemma tidy_reachable entropy clock (es : list WorldEvent) w :
  worldRun es (bootWorld entropy clock) = Return w → tidy (snd w).
Proof.
  rewrite worldRun_Return. intros [= <-].
  apply tidy_worldAfter, tidy_initializeDesk.
Qed.

End DeskWorld.

(** ** The tables that only grow *)

Section DeskTables.
Context {num : Type} `{Number num} `{Relations num}.
Abbreviation Server := (Server num).
Abbreviation Desk := (Desk num).
Abbreviation DeskRequest := (DeskRequest num).
Abbreviation WorldEvent := (WorldEvent num).
Abbreviation JsValue := (JsValue num).
Abbreviation Position := (Position num).
Implicit Types (w : Server * Desk) (d : Desk) (s : Server).

(** X11.  Creation never overwrites.  In every world reached from the
    start, [POST /api/portfolio], [POST /api/positions] and
    [POST /api/alerts] answer 201 with the record made; its id is the
    size of its table plus one and its userId the one of the body; the
    record is added at the end of its table, under its id, and every
    record that was there, and the other tables, are left as they
    were. *)
Theorem created_records_are_appended entropy clock (es : list WorldEvent) w :
  worldRun es (bootWorld entropy clock) = Return w →
  (∀ u tv ac pl, ∃ p s',
      handleDesk (POST_portfolio u tv ac pl) w
      = ({| code := 201; content := JPortfolio p |},
         (s', {| portfolios := portfolios (snd w) ++ [(size (portfolios (snd w)) + 1, p)];
                 positions := positions (snd w);
                 priceAlerts := priceAlerts (snd w);
                 trades := trades (snd w) |}))
      ∧ pf_id p = size (portfolios (snd w)) + 1 ∧ pf_userId p = u)
  ∧ (∀ u sym q avg cur pl ty, ∃ p s',
      handleDesk (POST_positions u sym q avg cur pl ty) w
      = ({| code := 201; content := JPosition p |},
         (s', {| portfolios := portfolios (snd w);
                 positions := positions (snd w) ++ [(size (positions (snd w)) + 1, p)];
                 priceAlerts := priceAlerts (snd w);
                 trades := trades (snd w) |}))
      ∧ pos_id p = size (positions (snd w)) + 1 ∧ pos_userId p = u)
  ∧ (∀ u sym cond target, ∃ a s',
      handleDesk (POST_alerts u sym cond target) w
      = ({| code := 201; content := JAlert a |},
         (s', {| portfolios := portfolios (snd w);
                 positions := positions (snd w);
                 priceAlerts := priceAlerts (snd w) ++ [(size (priceAlerts (snd w)) + 1, a)];
                 trades := trades (snd w) |}))
      ∧ al_id a = size (priceAlerts (snd w)) + 1 ∧ al_userId a = u).
Proof.
  intros Hw. destruct (tidy_reachable _ _ _ _ Hw) as (Hpf & Hpos & Hal).
  destruct w as [s d]. cbn [snd] in *. split; [|split].
  - intros u tv ac pl. eexists _, _. cbn.
    rewrite (numbered_fresh pf_id); [|done]. done.
  - intros u sym q avg cur pl ty. eexists _, _. cbn.
    rewrite (numbered_fresh pos_id); [|done]. done.
  - intros u sym cond target. eexists _, _. cbn.
    rewrite (numbered_fresh al_id); [|done]. done.
Qed.

Lemma find_app_Some {A} (f : A -> bool) (l more : list A) (x : A) :
  List.find f l = Some x → List.find f (l ++ more) = Some x.
Proof.
  induction l as [|y l IH]; simpl; [done|]. by destruct (f y).
Qed.

(** The table of portfolios and the table of alerts only grow at the end. *)
Lemma worldNext_grows (e : WorldEvent) w :
  tidy (snd w) →
  ∃ pfs als,
    portfolios (snd (worldNext e w)) = portfolios (snd w) ++ pfs
    ∧ priceAlerts (snd (worldNext e w)) = priceAlerts (snd w) ++ als
    ∧ Forall (fun a => untriggered (snd a)) als.
Proof.
  intros (Hpf & Hpos & Hal). destruct w as [s d].
  destruct e as [e|req]; [exists [], []; by rewrite !app_nil_r|].
  cbn [worldNext snd] in *.
  destruct req as [u|u tv ac pl|u|u sym q avg cur pl ty|u|u sym cond target
                  |u sym ty q x|sym action q ot|u]; cbn.
  - exists [], []. destruct (List.find _ _); by rewrite !app_nil_r.
  - rewrite (numbered_fresh pf_id); [|done].
    eexists [_], []. by rewrite app_nil_r.
  - exists [], []; by rewrite !app_nil_r.
  - exists [], []; by rewrite !app_nil_r.
  - exists [], []; by rewrite !app_nil_r.
  - rewrite (numbered_fresh al_id); [|done].
    eexists [], [_]. rewrite app_nil_r. repeat split. by repeat constructor.
  - exists [], [].
    destruct (List.find _ _); [|destruct (strictEq ty _)]; by rewrite !app_nil_r.
  - exists [], []; by rewrite !app_nil_r.
  - exists [], []. destruct (List.find _ _); by rewrite !app_nil_r.
Qed.

Lemma worldAfter_grows (es : list WorldEvent) w :
  tidy (snd w) →
  ∃ pfs als,
    portfolios (snd (worldAfter es w)) = portfolios (snd w) ++ pfs
    ∧ priceAlerts (snd (worldAfter es w)) = priceAlerts (snd w) ++ als
    ∧ Forall (fun a => untriggered (snd a)) als.
Proof.
  revert w. induction es as [|e es IH]; intros w Hw.
  - exists [], []. by rewrite !app_nil_r.
  - rewrite worldAfter_cons.
    destruct (worldNext_grows e w Hw) as (pfs & als & Hp & Ha & Hu).
    destruct (IH (worldNext e w) (tidy_worldNext e w Hw))
      as (pfs' & als' & -> & -> & Hu').
    exists (pfs ++ pfs'), (als ++ als'). rewrite Hp, Ha, !app_assoc.
    repeat split. by apply Forall_app.
Qed.

(** X12.  Once [GET /api/portfolio/:userId] has answered 200 with a
    portfolio, it answers 200 with that same portfolio after any
    further events, requests that create another portfolio for the same
    user included: a portfolio is never updated or replaced, and the
    first one of a user hides the later ones. *)
Theorem portfolio_lookup_is_stable entropy clock (es es' : list WorldEvent)
    w userId p :
  worldRun es (bootWorld entropy clock) = Return w →
  fst (handleDesk (GET_portfolio userId) w)
  = {| code := 200; content := JPortfolio p |} →
  ∃ w', worldRun es' w = Return w'
        ∧ fst (handleDesk (GET_portfolio userId) w')
          = {| code := 200; content := JPortfolio p |}.
Proof.
  intros Hw Hget. exists (worldAfter es' w). split; [apply worldRun_Return|].
  destruct (worldAfter_grows es' w (tidy_reachable _ _ _ _ Hw))
    as (pfs & _ & Hp & _).
  destruct w as [s d], (worldAfter es' (s, d)) as [s' d'].
  cbn [snd handleDesk] in *.
  destruct (List.find _ (values (portfolios d))) as [p0|] eqn:Hfind;
    [|discriminate].
  rewrite Hp. unfold values. rewrite map_app.
  by rewrite (find_app_Some _ _ _ _ Hfind).
Qed.

(** X13.  No alert is ever triggered or switched off: in every world
    reached from the start, every stored alert, and so every alert that
    [GET /api/alerts/:userId] returns, has [isActive] true,
    [isTriggered] false and [triggeredAt] null. *)
Theorem alerts_never_trigger entropy clock (es : list WorldEvent) w userId :
  worldRun es (bootWorld entropy clock) = Return w →
  Forall untriggered (values (priceAlerts (snd w)))
  ∧ ∃ als, handleDesk (GET_alerts userId) w
           = ({| code := 200; content := JAlerts als |}, w)
           ∧ Forall untriggered als.
Proof.
  rewrite worldRun_Return. intros [= <-].
  destruct (worldAfter_grows es (bootWorld entropy clock)
              (tidy_initializeDesk _)) as (_ & als & _ & Hals & Hu).
  destruct (worldAfter es _) as [s d]. cbn [snd handleDesk] in *.
  assert (Forall untriggered (values (priceAlerts d))) as Hall.
  { rewrite Hals. cbn. unfold values. by apply Forall_fmap. }
  split; [done|]. eexists. split; [done|].
  rewrite Forall_forall in Hall. apply Forall_forall.
  intros a [_ Ha]%list_elem_of_filter. by apply Hall.
Qed.

(** X14.  The routes that read compare the stored userId with the result
    of [parseInt] by [===].  So a record created with a userId that is
    not a JSON number (a string such as "7", null, a missing field) is
    invisible to them: after its creation, the portfolio, the positions
    and the alerts returned for any user are the ones returned
    before. *)
Theorem user_id_must_be_a_number entropy clock (es : list WorldEvent) w
    (u : JsValue) (n : num) :
  worldRun es (bootWorld entropy clock) = Return w →
  isNumber u = false →
  (∀ tv ac pl,
      fst (handleDesk (GET_portfolio n)
                      (snd (handleDesk (POST_portfolio u tv ac pl) w)))
      = fst (handleDesk (GET_portfolio n) w))
  ∧ (∀ sym q avg cur pl ty,
      fst (handleDesk (GET_positions n)
                      (snd (handleDesk (POST_positions u sym q avg cur pl ty) w)))
      = fst (handleDesk (GET_positions n) w))
  ∧ (∀ sym cond target,
      fst (handleDesk (GET_alerts n)
                      (snd (handleDesk (POST_alerts u sym cond target) w)))
      = fst (handleDesk (GET_alerts n) w)).
Proof.
  intros Hw Hu. destruct (tidy_reachable _ _ _ _ Hw) as (Hpf & Hpos & Hal).
  assert (strictEq u (JNumber n) = false) as Hne by by destruct u.
  destruct w as [s d]. cbn [snd] in *. split; [|split].
  - intros tv ac pl. cbn -[values].
    rewrite (numbered_fresh pf_id); [|done].
    rewrite values_snoc, find_snoc. cbn. rewrite Hne.
    by destruct (List.find _ _).
  - intros sym q avg cur pl ty. cbn -[values].
    rewrite (numbered_fresh pos_id); [|done].
    rewrite values_snoc.
    rewrite (filter_snoc (fun p => strictEq (pos_userId p) (JNumber n))).
    cbn. by rewrite Hne, app_nil_r.
  - intros sym cond target. cbn -[values].
    rewrite (numbered_fresh al_id); [|done].
    rewrite values_snoc.
    rewrite (filter_snoc (fun a => strictEq (al_userId a) (JNumber n))).
    cbn. by rewrite Hne, app_nil_r.
Qed.

(** The identity of a position *)
Lemma tradePositions_lookup u sym ty q x now (ps : list (Z * Position))
    (i : nat) k (p : Position) :
  numbered pos_id ps → ps !! i = Some (k, p) →
  ∃ p', tradePositions u sym ty q x now ps !! i = Some (k, p')
        ∧ pos_userId p' = pos_userId p ∧ pos_symbol p' = pos_symbol p
        ∧ avgPrice p' = avgPrice p ∧ positionType p' = positionType p
        ∧ createdAt p' = createdAt p.
Proof.
  intros Hpos Hi. unfold tradePositions.
  destruct (List.find _ _) as [p0|] eqn:Hfind.
  - match goal with
    | |- context [mapSet ?a ?b ps] =>
        destruct (mapSet_lookup a b ps i k p Hi) as (p' & Hp' & Hcase)
    end.
    exists p'. split; [exact Hp'|].
    destruct Hcase as [->|[-> ->]]; [done|]. cbn.
    assert (p0 = p) as ->; [|done].
    apply find_values_elem, list_elem_of_fmap in Hfind
      as ([k0 p1] & -> & Hin).
    pose proof (numbered_NoDup pos_id ps Hpos) as Hnd.
    destruct Hpos as [Hkeys Hids]. rewrite Forall_forall in Hids.
    pose proof (Hids _ Hin) as Hk0. cbn in Hk0. cbn in *.
    rewrite Hk0 in *.
    eapply (NoDup_keys_values ps); [exact Hnd|exact Hin|].
    by apply list_elem_of_lookup_2 in Hi.
  - destruct (strictEq ty _); [|by exists p]. cbn [pos_id].
    rewrite (numbered_fresh pos_id); [|done]. exists p.
    by rewrite (lookup_app_l_Some _ _ _ _ Hi).
Qed.

Lemma worldNext_positions (e : WorldEvent) w (i : nat) k (p : Position) :
  tidy (snd w) → positions (snd w) !! i = Some (k, p) →
  ∃ p', positions (snd (worldNext e w)) !! i = Some (k, p')
        ∧ pos_userId p' = pos_userId p ∧ pos_symbol p' = pos_symbol p
        ∧ avgPrice p' = avgPrice p ∧ positionType p' = positionType p
        ∧ createdAt p' = createdAt p.
Proof.
  intros (Hpf & Hpos & Hal) Hi. destruct w as [s d].
  destruct e as [e|req]; [by exists p|].
  cbn [worldNext snd] in *.
  destruct req as [u|u tv ac pl|u|u sym q avg cur pl ty|u|u sym cond target
                  |u sym ty q x|sym action q ot|u]; cbn.
  1: destruct (List.find _ _).
  10: destruct (List.find _ _).
  all: try by exists p.
  - rewrite (numbered_fresh pos_id); [|done]. exists p.
    by rewrite (lookup_app_l_Some _ _ _ _ Hi).
  - destruct (List.find _ _); [|destruct (strictEq ty _)]; cbn;
      by apply tradePositions_lookup.
Qed.

Lemma worldAfter_positions (es : list WorldEvent) w (i : nat) k (p : Position) :
  tidy (snd w) → positions (snd w) !! i = Some (k, p) →
  ∃ p', positions (snd (worldAfter es w)) !! i = Some (k, p')
        ∧ pos_userId p' = pos_userId p ∧ pos_symbol p' = pos_symbol p
        ∧ avgPrice p' = avgPrice p ∧ positionType p' = positionType p
        ∧ createdAt p' = createdAt p.
Proof.
  revert w p. induction es as [|e es IH]; intros w p Hw Hi; [by exists p|].
  rewrite worldAfter_cons.
  destruct (worldNext_positions e w i k p Hw Hi)
    as (p1 & Hi1 & <- & <- & <- & <- & <-).
  by apply IH; [apply tidy_worldNext|].
Qed.

(** X15.  A position is never removed, moved or re-attributed: the entry
    at a place of [positions] in a world reached from the start is,
    after any further events, still at that place under the same key,
    with the same id, user, symbol, average price, position type and
    creation date.  Trades change its quantity, current price and pnl
    only. *)
Theorem positions_keep_their_identity entropy clock (es es' : list WorldEvent)
    w (i : nat) k (p : Position) :
  worldRun es (bootWorld entropy clock) = Return w →
  positions (snd w) !! i = Some (k, p) →
  ∃ w' p', worldRun es' w = Return w'
           ∧ positions (snd w') !! i = Some (k, p')
           ∧ pos_id p' = k ∧ pos_id p = k
           ∧ pos_userId p' = pos_userId p ∧ pos_symbol p' = pos_symbol p
           ∧ avgPrice p' = avgPrice p ∧ positionType p' = positionType p
           ∧ createdAt p' = createdAt p.
Proof.
  intros Hw Hi. pose proof (tidy_reachable _ _ _ _ Hw) as Htidy.
  destruct (worldAfter_positions es' w i k p Htidy Hi) as (p' & Hi' & Hrest).
  exists (worldAfter es' w), p'. split; [apply worldRun_Return|].
  split; [exact Hi'|].
  pose proof (tidy_worldAfter es' w Htidy) as (_ & [_ Hids'] & _).
  destruct Htidy as (_ & [_ Hids] & _).
  rewrite Forall_forall in Hids, Hids'.
  split; [exact (Hids' _ (list_elem_of_lookup_2 _ _ _ Hi'))|].
  split; [exact (Hids _ (list_elem_of_lookup_2 _ _ _ Hi))|]. exact Hrest.
Qed.

End DeskTables.

(** ** Trades *)

Section DeskTrades.
Context {num : Type} `{Number num} `{Relations num}.
Abbreviation Server := (Server num).
Abbreviation Desk := (Desk num).
Abbreviation DeskRequest := (DeskRequest num).
Abbreviation WorldEvent := (WorldEvent num).
Abbreviation JsValue := (JsValue num).
Abbreviation Position := (Position num).
Implicit Types (w : Server * Desk) (d : Desk) (s : Server).

Lemma worldNext_dom (e : WorldEvent) w :
  dom (marketData (fst (worldNext e w))) = dom (marketData (fst w)).
Proof.
  destruct e as [e|req]; cbn [worldNext fst].
  - apply next_dom.
  - by destruct (handleDesk_server req w) as (-> & _).
Qed.

Lemma worldAfter_dom (es : list WorldEvent) w :
  dom (marketData (fst (worldAfter es w))) = dom (marketData (fst w)).
Proof.
  revert w. induction es as [|e es IH]; intros w; [done|].
  by rewrite worldAfter_cons, IH, worldNext_dom.
Qed.

Lemma reachable_dom entropy clock (es : list WorldEvent) w :
  worldRun es (bootWorld entropy clock) = Return w →
  dom (marketData (fst w)) = tracked.
Proof.
  rewrite worldRun_Return. intros [= <-]. rewrite worldAfter_dom.
  unfold bootWorld. cbn [fst]. apply boot_dom.
Qed.

(** X16.  [/api/ai/execute-trade] looks the symbol up as it is given,
    without upper-casing it.  For a symbol that is not one of the four,
    letter for letter ("nifty" is not), or is not a string, the trade is
    answered 200 as EXECUTED at the price 0; it is stored in [trades]
    under its id, the time read first, and portfolios, positions and
    alerts are left as they are. *)
Theorem untracked_symbol_trades_at_zero entropy clock (es : list WorldEvent)
    w (symbol action orderType : JsValue) (quantity : num) :
  worldRun es (bootWorld entropy clock) = Return w →
  (∀ sym, symbol = JString sym → sym ∉ symbols) →
  ∃ t w',
    handleDesk (POST_execute_trade symbol action quantity orderType) w
    = ({| code := 200; content := JTrade t |}, w')
    ∧ t = aiTrade (timeAt (fst w) 0) symbol action quantity
                  orderType "EXECUTED" (lit 0)
                  (timeAt (fst w) 1)
    ∧ mapGet (timeAt (fst w) 0) (trades (snd w')) = Some t
    ∧ portfolios (snd w') = portfolios (snd w)
    ∧ positions (snd w') = positions (snd w)
    ∧ priceAlerts (snd w') = priceAlerts (snd w).
Proof.
  intros Hw Hsym. pose proof (reachable_dom _ _ _ _ Hw) as Hdom.
  destruct w as [s d]. cbn [fst snd] in *.
  assert (match symbol with
          | JString sym => marketData s !! sym
          | _ => None
          end = None) as Hentry.
  { destruct symbol as [| | | |sym|]; try done.
    apply not_elem_of_dom. rewrite Hdom. unfold tracked.
    rewrite elem_of_list_to_set. by apply Hsym. }
  eexists _, _. cbn. rewrite Hentry. split; [done|]. split; [done|].
  split; [|done]. cbn. apply mapGet_mapSet.
Qed.

(** X17.  The id of an AI trade is the time in milliseconds.  Two
    [/api/ai/execute-trade] requests served one after the other with
    the same [Date.now()] are both answered 200, with the same id; the
    second record takes the place of the first in [trades], whose size
    does not grow. *)
Theorem same_stamp_overwrites w (sym1 act1 ot1 sym2 act2 ot2 : JsValue)
    (q1 q2 : num) :
  timeAt (fst w) 2 = timeAt (fst w) 0 →
  ∃ t1 w1 t2 w2,
    handleDesk (POST_execute_trade sym1 act1 q1 ot1) w
    = ({| code := 200; content := JTrade t1 |}, w1)
    ∧ handleDesk (POST_execute_trade sym2 act2 q2 ot2) w1
      = ({| code := 200; content := JTrade t2 |}, w2)
    ∧ mapGet (timeAt (fst w) 0) (trades (snd w1)) = Some t1
    ∧ mapGet (timeAt (fst w) 0) (trades (snd w2)) = Some t2
    ∧ length (trades (snd w2)) = length (trades (snd w1)).
Proof.
  intros Hstamp. destruct w as [s d]. unfold timeAt in *.
  cbn [fst snd Nat.add] in *.
  eexists _, _, _, _. cbn. split; [done|]. split; [done|]. cbn.
  rewrite Hstamp. split; [apply mapGet_mapSet|]. split; [apply mapGet_mapSet|].
  rewrite <- !(length_map fst). apply (f_equal (@length Z)).
  apply mapSet_keys_present.
  assert (∀ {V} k (v : V) m, k ∈ map fst (mapSet k v m)) as Hin;
    [|apply Hin].
  intros V k v m. induction m as [|[k' v'] m IH]; simpl.
  - apply list_elem_of_here.
  - destruct (Z.eqb_spec k k'); simpl;
      [apply list_elem_of_here|by apply list_elem_of_further].
Qed.

(** X18.  The requests of the desk never act on the market side: any
    sequence of them returns and leaves the quote table, the options
    chain, the analysis log, the socket registry and the wire as they
    were, and draws no random number.  Nothing is sent to a viewer. *)
Theorem desk_requests_leave_the_market (rs : list DeskRequest) w :
  ∃ w', worldRun (map Api rs) w = Return w'
        ∧ marketData (fst w') = marketData (fst w)
        ∧ optionsData (fst w') = optionsData (fst w)
        ∧ aiAnalysis (fst w') = aiAnalysis (fst w)
        ∧ clients (fst w') = clients (fst w)
        ∧ wire (fst w') = wire (fst w)
        ∧ drawn (fst w') = drawn (fst w).
Proof.
  exists (worldAfter (map Api rs) w). split; [apply worldRun_Return|].
  revert w. induction rs as [|r rs IH]; intros w; [done|].
  cbn [map]. rewrite worldAfter_cons. cbn [worldNext].
  destruct (IH (snd (handleDesk r w))) as (-> & -> & -> & -> & -> & ->).
  by destruct (handleDesk_server r w)
    as (-> & -> & -> & -> & _ & -> & _ & -> & _).
Qed.

(** One trade on a position that exists. *)
Lemma trade_on_a_position u sym ty q x w (p0 : Position) :
  tidy (snd w) →
  List.find (holds u sym) (values (positions (snd w))) = Some p0 →
  ∃ p',
    List.find (holds u sym)
              (values (positions
                         (snd (snd (handleDesk (POST_trade u sym ty q x) w)))))
    = Some p'
    ∧ pos_quantity p' = (if strictEq ty (JString "buy")
                         then add (pos_quantity p0) q
                         else sub (pos_quantity p0) q)
    ∧ avgPrice p' = avgPrice p0 ∧ pos_id p' = pos_id p0
    ∧ currentPrice p' = x
    ∧ pnl p' = mul (sub x (avgPrice p0)) (pos_quantity p')
    ∧ length (positions (snd (snd (handleDesk (POST_trade u sym ty q x) w))))
      = length (positions (snd w)).
Proof.
  intros (_ & Hpos & _) Hfind. destruct w as [s d]. cbn [snd] in *.
  cbn -[values]. rewrite Hfind. cbn -[values]. unfold tradePositions.
  rewrite Hfind. eexists. split; [|split; [|split; [|split; [|split;
    [|split]]]]].
  - apply (find_mapSet pos_id); [done|done|]. cbn.
    by apply find_some in Hfind as [_ Hf].
  - done.
  - done.
  - done.
  - done.
  - done.
  - eapply numbered_update; [done| |done]. by apply find_values_elem in Hfind.
Qed.


Lemma trades_on_a_position u sym (orders : list (JsValue * num * num)) w
    (p0 : Position) :
  tidy (snd w) →
  List.find (holds u sym) (values (positions (snd w))) = Some p0 →
  ∃ p',
    List.find (holds u sym)
              (values (positions (snd (worldAfter (ordersOf u sym orders) w))))
    = Some p'
    ∧ pos_quantity p' = netQuantity (pos_quantity p0) orders
    ∧ avgPrice p' = avgPrice p0 ∧ pos_id p' = pos_id p0
    ∧ length (positions (snd (worldAfter (ordersOf u sym orders) w)))
      = length (positions (snd w))
    ∧ ∀ ty q x, last orders = Some (ty, q, x) →
                currentPrice p' = x
                ∧ pnl p' = mul (sub x (avgPrice p0)) (pos_quantity p').
Proof.
  intros Hw Hfind.
  induction orders as [|[[ty q] x] orders IH] using rev_ind.
  - exists p0. by repeat split.
  - destruct IH as (p1 & Hfind1 & Hq1 & Havg1 & Hid1 & Hlen1 & _).
    unfold ordersOf. rewrite map_app, worldAfter_app. cbn [map].
    rewrite worldAfter_cons. cbn [worldAfter foldl worldNext].
    fold (ordersOf u sym orders).
    destruct (trade_on_a_position u sym ty q x
                (worldAfter (ordersOf u sym orders) w) p1)
      as (p' & Hfind' & Hq' & Havg' & Hid' & Hcur' & Hpnl' & Hlen');
      [by apply tidy_worldAfter|done|].
    exists p'. split; [exact Hfind'|].
    unfold netQuantity. rewrite foldl_app. cbn [foldl].
    fold (netQuantity (pos_quantity p0) orders).
    rewrite <- Hq1, <- Havg1, <- Hid1, <- Hlen1.
    repeat split; try done.
    + rewrite last_snoc in *. by simplify_eq.
    + rewrite last_snoc in *. by simplify_eq.
Qed.

(** X19.  Trades on a holding.  When [/api/trade] finds a position of the
    user in the symbol, any sequence of orders of that user on that
    symbol returns and leaves one position for them, the same record
    updated: its quantity is the one held plus the quantities bought
    minus the quantities of the orders of any other type (it may fall
    below zero), its average price is the initial one (a buy does not
    re-average), no position is added; after the last order, at price
    x, its current price is x and its pnl is
    (x - average price) * quantity. *)
Theorem position_follows_trades entropy clock (es : list WorldEvent) w
    (u sym : JsValue) (orders : list (JsValue * num * num)) (p0 : Position) :
  worldRun es (bootWorld entropy clock) = Return w →
  List.find (holds u sym) (values (positions (snd w))) = Some p0 →
  ∃ w' p',
    worldRun (ordersOf u sym orders) w = Return w'
    ∧ List.find (holds u sym) (values (positions (snd w'))) = Some p'
    ∧ pos_quantity p' = netQuantity (pos_quantity p0) orders
    ∧ avgPrice p' = avgPrice p0 ∧ pos_id p' = pos_id p0
    ∧ length (positions (snd w')) = length (positions (snd w))
    ∧ ∀ ty q x, last orders = Some (ty, q, x) →
                currentPrice p' = x
                ∧ pnl p' = mul (sub x (avgPrice p0)) (pos_quantity p').
Proof.
  intros Hw Hfind.
  destruct (trades_on_a_position u sym orders w p0
              (tidy_reachable _ _ _ _ Hw) Hfind) as (p' & Hp').
  exists (worldAfter (ordersOf u sym orders) w), p'.
  split; [apply worldRun_Return|exact Hp'].
Qed.

(** X20.  A trade for which [/api/trade] finds no position of the user in
    the symbol is answered 201 with an EXECUTED trade numbered by the
    size of [trades] plus one, whatever its type.  A buy adds one
    position at the end of [positions]: id the size plus one, the
    quantity and the price of the order as quantity, average and
    current price, pnl 0, type 'long', dated after the trade.  Any
    other type (a sell of what is not held) leaves [positions] as it
    is. *)
Theorem trade_without_a_position entropy clock (es : list WorldEvent) w
    (u sym ty : JsValue) (q x : num) :
  worldRun es (bootWorld entropy clock) = Return w →
  List.find (holds u sym) (values (positions (snd w))) = None →
  ∃ w',
    handleDesk (POST_trade u sym ty q x) w
    = ({| code := 201;
          content := JTrade (trade (size (trades (snd w)) + 1) u sym ty q x
                                   "EXECUTED"
                                   (timeAt (fst w) 0)) |}, w')
    ∧ positions (snd w')
      = (if strictEq ty (JString "buy")
         then positions (snd w)
              ++ [(size (positions (snd w)) + 1,
                   {| pos_id := size (positions (snd w)) + 1;
                      pos_userId := u; pos_symbol := sym;
                      pos_quantity := q; avgPrice := x; currentPrice := x;
                      pnl := lit 0; positionType := JString "long";
                      createdAt := timeAt (fst w) 1 |})]
         else positions (snd w)).
Proof.
  intros Hw Hfind. destruct (tidy_reachable _ _ _ _ Hw) as (_ & Hpos & _).
  destruct w as [s d]. cbn [fst snd] in *.
  destruct (strictEq ty (JString "buy")) eqn:Hbuy; eexists;
    cbn -[values]; rewrite Hfind; unfold tradePositions; rewrite Hfind, Hbuy;
    cbn -[values]; [|done].
  rewrite (numbered_fresh pos_id); [|done]. split; reflexivity.
Qed.

End DeskTrades.

(** ** Arithmetic of the desk *)

Section DeskExact.
Implicit Types (w : Server Q * Desk Q).
Local Open Scope Q_scope.

Lemma worldNext_priced (e : WorldEvent Q) w :
  (∀ i, 0 <= entropy (fst w) i < 1) → priced (fst w) →
  (∀ i, 0 <= entropy (fst (worldNext e w)) i < 1)
  ∧ priced (fst (worldNext e w)).
Proof.
  intros Hr Hp. destruct e as [e|req]; cbn [worldNext fst].
  - split; [by rewrite next_entropy|by apply next_priced].
  - destruct (handleDesk_server req w)
      as (Hm & _ & _ & _ & _ & _ & He & _).
    split; [by rewrite He|]. unfold priced. by rewrite Hm.
Qed.

Lemma worldAfter_priced (es : list (WorldEvent Q)) w :
  (∀ i, 0 <= entropy (fst w) i < 1) → priced (fst w) →
  priced (fst (worldAfter es w)).
Proof.
  revert w. induction es as [|e es IH]; intros w Hr Hp; [done|].
  rewrite worldAfter_cons.
  destruct (worldNext_priced e w Hr Hp) as [Hr' Hp']. by apply IH.
Qed.



Lemma risk_threshold (a tv c : Q) :
  0 < tv → (a / tv * 100 < c ↔ 100 * a < c * tv).
Proof.
  intros Htv.
  assert (a == a / tv * tv) as Ha by (field; lra).
  set (r := a / tv) in *. clearbody r. split; intros Hlt.
  - rewrite Ha. nra.
  - rewrite Ha in Hlt. nra.
Qed.


End DeskExact.

Section DeskBinary64.

(** X24.  The risk assessment in binary64 of a user whose portfolio has
    the value 0 and who has no position: 0 / 0 makes the score NaN,
    which fails both comparisons, so the level reported is HIGH. *)
Theorem risk_of_an_empty_portfolio (w : Server float * Desk float)
    (userId : float) (pf : Portfolio float) :
  List.find (fun p => strictEq (pf_userId p) (JNumber userId))
            (values (portfolios (snd w))) = Some pf →
  totalValue pf = lit 0 →
  filter (fun p => strictEq (pos_userId p) (JNumber userId) = true)
         (values (positions (snd w))) = [] →
  ∃ r w',
    handleDesk (GET_risk_assessment userId) w
    = ({| code := 200; content := JRisk r |}, w')
    ∧ PrimFloat.is_nan (riskScore r) = true
    ∧ risk r = "HIGH"%string.
Proof.
  intros Hfind Htv Hnone. destruct w as [s d]. cbn [snd] in *.
  eexists _, _. cbn -[values riskAssessment]. rewrite Hfind.
  cbn -[values riskAssessment].
  split; [reflexivity|].
  unfold riskAssessment. rewrite Hnone, Htv.
  cbn [riskScore risk foldl]. split; vm_compute; reflexivity.
Qed.

End DeskBinary64.

(** X11 at work, in the sample world. *)
Lemma created_records_are_appended_witness :
  (∀ u tv ac pl, ∃ p s',
      handleDesk (POST_portfolio u tv ac pl) (sampleWorld (num:=Q))
      = ({| code := 201; content := JPortfolio p |},
         (s', {| portfolios :=
                   portfolios (snd (sampleWorld (num:=Q)))
                   ++ [(size (portfolios (snd (sampleWorld (num:=Q)))) + 1, p)];
                 positions := positions (snd (sampleWorld (num:=Q)));
                 priceAlerts := priceAlerts (snd (sampleWorld (num:=Q)));
                 trades := trades (snd (sampleWorld (num:=Q))) |}))
      ∧ pf_id p = size (portfolios (snd (sampleWorld (num:=Q)))) + 1
      ∧ pf_userId p = u)
  ∧ (∀ u sym q avg cur pl ty, ∃ p s',
      handleDesk (POST_positions u sym q avg cur pl ty) (sampleWorld (num:=Q))
      = ({| code := 201; content := JPosition p |},
         (s', {| portfolios := portfolios (snd (sampleWorld (num:=Q)));
                 positions :=
                   positions (snd (sampleWorld (num:=Q)))
                   ++ [(size (positions (snd (sampleWorld (num:=Q)))) + 1, p)];
                 priceAlerts := priceAlerts (snd (sampleWorld (num:=Q)));
                 trades := trades (snd (sampleWorld (num:=Q))) |}))
      ∧ pos_id p = size (positions (snd (sampleWorld (num:=Q)))) + 1
      ∧ pos_userId p = u)
  ∧ (∀ u sym cond target, ∃ a s',
      handleDesk (POST_alerts u sym cond target) (sampleWorld (num:=Q))
      = ({| code := 201; content := JAlert a |},
         (s', {| portfolios := portfolios (snd (sampleWorld (num:=Q)));
                 positions := positions (snd (sampleWorld (num:=Q)));
                 priceAlerts :=
                   priceAlerts (snd (sampleWorld (num:=Q)))
                   ++ [(size (priceAlerts (snd (sampleWorld (num:=Q)))) + 1, a)];
                 trades := trades (snd (sampleWorld (num:=Q))) |}))
      ∧ al_id a = size (priceAlerts (snd (sampleWorld (num:=Q)))) + 1
      ∧ al_userId a = u).
Proof.
  apply (created_records_are_appended (fun _ => lit 0.75) (fun n => Z.of_nat n)
           sampleEvents).
  vm_compute. reflexivity.
Defined.

(** X12 at work: user 1 posts a second portfolio. *)
Lemma portfolio_lookup_is_stable_witness :
  ∃ w',
    worldRun [Api (POST_portfolio (JNumber 1%Q) 1%Q 1%Q 1%Q); Market Tick]
             (sampleWorld (num:=Q)) = Return w'
    ∧ fst (handleDesk (GET_portfolio 1%Q) w')
      = {| code := 200; content := JPortfolio demoPortfolio |}.
Proof.
  apply (portfolio_lookup_is_stable (fun _ => lit 0.75) (fun n => Z.of_nat n)
           sampleEvents).
  - vm_compute. reflexivity.
  - vm_compute. reflexivity.
Defined.

(** X13 at work: the alerts of user 1 in the sample world. *)
Lemma alerts_never_trigger_witness :
  Forall untriggered (values (priceAlerts (snd (sampleWorld (num:=Q)))))
  ∧ ∃ als, handleDesk (GET_alerts 1%Q) sampleWorld
           = ({| code := 200; content := JAlerts als |}, sampleWorld)
           ∧ Forall untriggered als.
Proof.
  apply (alerts_never_trigger (fun _ => lit 0.75) (fun n => Z.of_nat n)
           sampleEvents).
  vm_compute. reflexivity.
Defined.

(** X14 at work: records of the user "7", read for the user 7. *)
Lemma user_id_must_be_a_number_witness :
  (∀ tv ac pl,
      fst (handleDesk (GET_portfolio 7%Q)
             (snd (handleDesk (POST_portfolio (JString "7") tv ac pl)
                              (sampleWorld (num:=Q)))))
      = fst (handleDesk (GET_portfolio 7%Q) sampleWorld))
  ∧ (∀ sym q avg cur pl ty,
      fst (handleDesk (GET_positions 7%Q)
             (snd (handleDesk (POST_positions (JString "7") sym q avg cur pl ty)
                              (sampleWorld (num:=Q)))))
      = fst (handleDesk (GET_positions 7%Q) sampleWorld))
  ∧ (∀ sym cond target,
      fst (handleDesk (GET_alerts 7%Q)
             (snd (handleDesk (POST_alerts (JString "7") sym cond target)
                              (sampleWorld (num:=Q)))))
      = fst (handleDesk (GET_alerts 7%Q) sampleWorld)).
Proof.
  apply (user_id_must_be_a_number (fun _ => lit 0.75) (fun n => Z.of_nat n)
           sampleEvents).
  - vm_compute. reflexivity.
  - reflexivity.
Defined.

(** X15 at work: the call position of the demo data after a sale. *)
Lemma positions_keep_their_identity_witness :
  ∃ w' p',
    worldRun [Api (POST_trade (JNumber 1%Q) (JString "BANKNIFTY 48000 CE")
                              (JString "sell") 40%Q 300%Q)]
             (sampleWorld (num:=Q)) = Return w'
    ∧ positions (snd w') !! 0%nat = Some (1, p')
    ∧ pos_id p' = 1 ∧ pos_id (callPosition (num:=Q)) = 1
    ∧ pos_userId p' = pos_userId (callPosition (num:=Q))
    ∧ pos_symbol p' = pos_symbol (callPosition (num:=Q))
    ∧ avgPrice p' = avgPrice (callPosition (num:=Q))
    ∧ positionType p' = positionType (callPosition (num:=Q))
    ∧ createdAt p' = createdAt (callPosition (num:=Q)).
Proof.
  apply (positions_keep_their_identity (fun _ => lit 0.75)
           (fun n => Z.of_nat n) sampleEvents).
  - vm_compute. reflexivity.
  - vm_compute. reflexivity.
Defined.

(** X16 at work: the symbol in lower case. *)
Lemma untracked_symbol_trades_at_zero_witness :
  ∃ t w',
    handleDesk (POST_execute_trade (JString "nifty") (JString "BUY") 25%Q
                                   (JString "MARKET")) (sampleWorld (num:=Q))
    = ({| code := 200; content := JTrade t |}, w')
    ∧ t = aiTrade (timeAt (fst (sampleWorld (num:=Q))) 0)
                  (JString "nifty") (JString "BUY") 25%Q (JString "MARKET")
                  "EXECUTED" (lit 0)
                  (timeAt (fst (sampleWorld (num:=Q))) 1)
    ∧ mapGet (timeAt (fst (sampleWorld (num:=Q))) 0)
             (trades (snd w')) = Some t
    ∧ portfolios (snd w') = portfolios (snd (sampleWorld (num:=Q)))
    ∧ positions (snd w') = positions (snd (sampleWorld (num:=Q)))
    ∧ priceAlerts (snd w') = priceAlerts (snd (sampleWorld (num:=Q))).
Proof.
  apply (untracked_symbol_trades_at_zero (fun _ => lit 0.75)
           (fun n => Z.of_nat n) sampleEvents).
  - vm_compute. reflexivity.
  - intros sym [= <-]. vm_compute. intros Hin.
    repeat (apply elem_of_cons in Hin as [Hin|Hin]; [discriminate Hin|]).
    inversion Hin.
Defined.

(** X17 at work: a clock that stands still. *)
Lemma same_stamp_overwrites_witness :
  ∃ t1 w1 t2 w2,
    handleDesk (POST_execute_trade (JString "NIFTY") (JString "BUY") 25%Q
                                   (JString "MARKET"))
               (bootWorld (fun _ => 0.75%Q) (fun _ => 1700000000000))
    = ({| code := 200; content := JTrade t1 |}, w1)
    ∧ handleDesk (POST_execute_trade (JString "SENSEX") (JString "SELL") 5%Q
                                     (JString "LIMIT")) w1
      = ({| code := 200; content := JTrade t2 |}, w2)
    ∧ mapGet 1700000000000 (trades (snd w1)) = Some t1
    ∧ mapGet 1700000000000 (trades (snd w2)) = Some t2
    ∧ length (trades (snd w2)) = length (trades (snd w1)).
Proof.
  apply (same_stamp_overwrites
           (bootWorld (fun _ => 0.75%Q) (fun _ => 1700000000000))).
  reflexivity.
Defined.

(** X19 at work: 100 held, 10 bought, 130 sold. *)
Lemma position_follows_trades_witness :
  ∃ w' p',
    worldRun (ordersOf (JNumber 1%Q) (JString "BANKNIFTY 48000 CE")
                       [(JString "buy", 10%Q, 300%Q);
                        (JString "sell", 130%Q, 310%Q)])
             (sampleWorld (num:=Q)) = Return w'
    ∧ List.find (holds (JNumber 1%Q) (JString "BANKNIFTY 48000 CE"))
                (values (positions (snd w'))) = Some p'
    ∧ pos_quantity p'
      = netQuantity (pos_quantity (callPosition (num:=Q)))
                    [(JString "buy", 10%Q, 300%Q);
                     (JString "sell", 130%Q, 310%Q)]
    ∧ avgPrice p' = avgPrice (callPosition (num:=Q))
    ∧ pos_id p' = pos_id (callPosition (num:=Q))
    ∧ length (positions (snd w'))
      = length (positions (snd (sampleWorld (num:=Q))))
    ∧ ∀ (ty : JsValue Q) (q x : Q),
        last [(JString "buy", 10%Q, 300%Q); (JString "sell", 130%Q, 310%Q)]
        = Some (ty, q, x) →
        currentPrice p' = x
        ∧ pnl p' = mul (sub x (avgPrice (callPosition (num:=Q))))
                       (pos_quantity p').
Proof.
  apply (position_follows_trades (fun _ => lit 0.75) (fun n => Z.of_nat n)
           sampleEvents).
  - vm_compute. reflexivity.
  - vm_compute. reflexivity.
Defined.

(** X20 at work: user 2 sells SENSEX, which they do not hold. *)
Lemma trade_without_a_position_witness :
  ∃ w',
    handleDesk (POST_trade (JNumber 2%Q) (JString "SENSEX") (JString "sell")
                           5%Q 72000%Q) (sampleWorld (num:=Q))
    = ({| code := 201;
          content :=
            JTrade (trade (size (trades (snd (sampleWorld (num:=Q)))) + 1)
                          (JNumber 2%Q) (JString "SENSEX") (JString "sell")
                          5%Q 72000%Q "EXECUTED"
                          (timeAt (fst (sampleWorld (num:=Q))) 0)) |}, w')
    ∧ positions (snd w')
      = (if strictEq (JString "sell") (JString (num:=Q) "buy")
         then positions (snd (sampleWorld (num:=Q)))
              ++ [(size (positions (snd (sampleWorld (num:=Q)))) + 1,
                   {| pos_id := size (positions (snd (sampleWorld (num:=Q)))) + 1;
                      pos_userId := JNumber 2%Q; pos_symbol := JString "SENSEX";
                      pos_quantity := 5%Q; avgPrice := 72000%Q;
                      currentPrice := 72000%Q;
                      pnl := lit 0; positionType := JString "long";
                      createdAt :=
                        timeAt (fst (sampleWorld (num:=Q))) 1 |})]
         else positions (snd (sampleWorld (num:=Q)))).
Proof.
  apply (trade_without_a_position (fun _ => lit 0.75) (fun n => Z.of_nat n)
           sampleEvents).
  - vm_compute. reflexivity.
  - vm_compute. reflexivity.
Defined.




(** X24 at work: user 7 posts a portfolio of value 0. *)
Lemma risk_of_an_empty_portfolio_witness :
  ∃ r w',
    handleDesk (GET_risk_assessment (lit 7))
               (worldAfter [Api (POST_portfolio (JNumber (lit 7)) (lit 0)
                                                (lit 0) (lit 0))]
                           (demoWorld (num:=float) 0.75))
    = ({| code := 200; content := JRisk r |}, w')
    ∧ PrimFloat.is_nan (riskScore r) = true
    ∧ risk r = "HIGH"%string.
Proof.
  apply (risk_of_an_empty_portfolio
           (worldAfter [Api (POST_portfolio (JNumber (lit 7)) (lit 0)
                                            (lit 0) (lit 0))]
                       (demoWorld (num:=float) 0.75))
           (lit 7)
           {| pf_id := 2; pf_userId := JNumber (lit 7); totalValue := lit 0;
              availableCash := lit 0; todayPnL := lit 0; updatedAt := 14 |}).
  - vm_compute. reflexivity.
  - reflexivity.
  - vm_compute. reflexivity.
Defined.
